(** * EPO vector search engine: the harvesting and embedding pipelines

    A shallow embedding of [main.py] (patent harvesting through the EPO
    OPS API into MongoDB) and of [embeddeAndStore.py] (embedding the
    harvested abstracts and writing them to the vector index), with the
    properties of the ingestion pipeline proved about it.

    Python objects are represented as follows.
    - Values decoded from JSON are the inductive type [json]; a [dict] is an
      association list, and [dict.get], indexing, truthiness and slicing are
      written out with the exceptions Python raises on the wrong type.
    - Exceptions are the type [exn]; a function that can raise returns a
      [result].
    - The outside world (clock, HTTP servers, MongoDB, the embedding and
      vector services) is a record [Env] of oracles that see the whole
      history of events, so a collaborator may answer differently on every
      call.  Every call to a collaborator is appended to the [trace].
    - Time stamps ([time.time()], a Python float) are idealised as rationals.
    - Methods of a mutable object are state transformers over the pair of
      the object and the world, in the monad [M]. *)

From Stdlib Require Import ZArith QArith Lqa Lia DecimalString.
From stdpp Require Import base option list strings gmap.

Set Default Proof Using "Type".
Set Warnings "-register-all".

(** ** Exceptions and results *)

(** The exception classes the two scripts can meet.  [RequestException]
    stands for [requests.RequestException] and all its subclasses; its
    argument is the [content] of the response attached to the exception
    ([e.response]), [None] when the exception carries no response. *)
Inductive exn : Type :=
| RequestException (response : option string)
| AttributeError
| TypeError
| KeyError
| IndexError
| ZeroDivisionError
| OtherException (name : string).

Definition is_RequestException (e : exn) : bool :=
  match e with RequestException _ => true | _ => false end.

(** [except Exception] catches every member of [exn]. *)
Definition is_Exception (e : exn) : bool := true.

Inductive result (A : Type) : Type :=
| Ok (a : A)
| Raise (e : exn).
Arguments Ok {A} a.
Arguments Raise {A} e.

(** ** Python values *)

Inductive json : Type :=
| JNull
| JBool (b : bool)
| JNum (n : Z)
| JStr (s : string)
| JArr (items : list json)
| JObj (fields : list (string * json)).

Fixpoint assoc (k : string) (fields : list (string * json)) : option json :=
  match fields with
  | [] => None
  | (k', v) :: rest => if String.eqb k k' then Some v else assoc k rest
  end.

(** [bool(v)]: the truth value Python gives a decoded value. *)
Definition truthy (v : json) : bool :=
  match v with
  | JNull => false
  | JBool b => b
  | JNum n => negb (n =? 0)%Z
  | JStr s => negb (String.eqb s "")
  | JArr items => match items with [] => false | _ => true end
  | JObj fields => match fields with [] => false | _ => true end
  end.

(** [v.get(k, default)]: only a dict has the method. *)
Definition py_get (v : json) (k : string) (default : json) : result json :=
  match v with
  | JObj fields => Ok (from_option id default (assoc k fields))
  | _ => Raise AttributeError
  end.

(** [v[k]] with a string key. *)
Definition py_getitem (v : json) (k : string) : result json :=
  match v with
  | JObj fields =>
      match assoc k fields with Some x => Ok x | None => Raise KeyError end
  | _ => Raise TypeError
  end.

(** [v[:n]] followed by iteration: a list gives its first [n] elements, a
    string its first [n] characters, anything else cannot be sliced. *)
Definition py_slice (n : nat) (v : json) : result (list json) :=
  match v with
  | JArr items => Ok (take n items)
  | JStr s =>
      Ok (map (fun c => JStr (String c EmptyString)) (take n (String.list_ascii_of_string s)))
  | _ => Raise TypeError
  end.

(** ** HTTP responses *)

Record Response : Type := {
  status_code : Z;
  content : string;
  (** what [response.json()] does: the decoded body, or the exception *)
  json_body : result json
}.

(** [response.raise_for_status()]: client and server errors raise an
    [HTTPError] that carries the response. *)
Definition raise_for_status (r : Response) : result unit :=
  if ((400 <=? status_code r) && (status_code r <? 600))%Z
  then Raise (RequestException (Some (content r)))
  else Ok tt.

(** ** The world *)

Inductive level : Type := INFO | ERROR.

Inductive event : Type :=
| EvTime (t : Q)
| EvSleep (d : Q)
| EvPost (url : string)
| EvGet (endpoint : string) (authorization : option string)
| EvInsertOne (doc : json)
| EvEmbed (input : json)
| EvVectorInsert (id : json) (values : list Q)
| EvLog (lvl : level) (msg : string) (cause : option exn)
| EvPrint (msg : string).

(** The collaborators.  Each one sees the events so far.  [py_str] is
    Python's [str()] on the values that are not strings, and [quote] is
    [urllib.parse.quote]. *)
Record Env : Type := {
  latency : list event -> Q;
  requests_post : list event -> string -> string * string -> result Response;
  requests_get : list event -> string -> gmap string string -> result Response;
  insert_one : list event -> json -> option exn;
  embeddings_create : list event -> json -> result (list (list Q));
  vectorize_insert : list event -> json -> list Q -> result json;
  quote : string -> string;
  py_str : json -> string
}.

Record World : Type := {
  now : Q;
  trace : list event;
  (** the documents of the [patents] collection *)
  patents : list json
}.

(** ** The monad of methods: object state, world, exceptions *)

Definition M (O A : Type) : Type := O * World -> result A * (O * World).

Definition ret {O A} (a : A) : M O A := fun s => (Ok a, s).

Definition bind {O A B} (m : M O A) (k : A -> M O B) : M O B :=
  fun s =>
    match m s with
    | (Ok a, s') => k a s'
    | (Raise e, s') => (Raise e, s')
    end.

Definition raise {O A} (e : exn) : M O A := fun s => (Raise e, s).

Definition lift {O A} (r : result A) : M O A := fun s => (r, s).

(** [try: body except C as e: handler e], where [catches] decides
    [isinstance(e, C)]. *)
Definition try_except {O A} (body : M O A) (catches : exn -> bool)
    (handler : exn -> M O A) : M O A :=
  fun s =>
    match body s with
    | (Raise e, s') => if catches e then handler e s' else (Raise e, s')
    | r => r
    end.

Declare Scope py_scope.
Delimit Scope py_scope with py.
Notation "x <- m ;; k" := (bind m (fun x => k))
  (at level 20, m at level 99, k at level 200, only parsing) : py_scope.
Notation "m ;; k" := (bind m (fun _ => k))
  (at level 100, k at level 200, right associativity, only parsing) : py_scope.
Local Open Scope py_scope.

Definition get_self {O} : M O O := fun s => (Ok (fst s), s).
Definition set_self {O} (o : O) : M O unit := fun s => (Ok tt, (o, snd s)).
Definition get_trace {O} : M O (list event) := fun s => (Ok (trace (snd s)), s).

Definition emit {O} (e : event) : M O unit :=
  fun s =>
    let w := snd s in
    (Ok tt, (fst s, {| now := now w; trace := trace w ++ [e]; patents := patents w |})).

Definition advance {O} (d : Q) : M O unit :=
  fun s =>
    let w := snd s in
    (Ok tt, (fst s, {| now := (now w + d)%Q; trace := trace w; patents := patents w |})).

Section Collaborators.
Context {O : Type} (E : Env).

(** Some time passes whenever the program reaches the outside. *)
Definition elapse : M O unit :=
  tr <- get_trace ;; advance (latency E tr).

(** [time.time()] *)
Definition time_time : M O Q :=
  elapse ;;
  fun s => let t := now (snd s) in (emit (EvTime t) ;; ret t) s.

(** [time.sleep(d)]: at least [d] seconds pass. *)
Definition time_sleep (d : Q) : M O unit :=
  emit (EvSleep d) ;; advance d ;; elapse.

Definition logging (lvl : level) (msg : string) (cause : option exn) : M O unit :=
  emit (EvLog lvl msg cause).

Definition print (msg : string) : M O unit := emit (EvPrint msg).
End Collaborators.

Definition sleeps (tr : list event) : list Q :=
  omap (fun e => match e with EvSleep d => Some d | _ => None end) tr.

(** ** [RateLimiter] *)

Module RateLimiter.

Record t : Type := {
  delay : Q;
  (** [last_call], keyed by [threading.get_ident()] *)
  last_call : gmap nat Q
}.

(** [calls_per_second] is a float: the finite rates, and [float('inf')],
    the one rate whose quotient is a zero delay. *)
Inductive rate : Type :=
| Finite (q : Q)
| Infinite.

(** [__init__]: [self.delay = 1.0 / calls_per_second] *)
Definition init (calls_per_second : rate) : result t :=
  match calls_per_second with
  | Finite q =>
      if Qeq_bool q 0 then Raise ZeroDivisionError
      else Ok {| delay := 1 / q; last_call := ∅ |}
  | Infinite => Ok {| delay := 0; last_call := ∅ |}
  end.

Definition Qlt_bool (a b : Q) : bool := negb (Qle_bool b a).

(** [wait], called by the thread [thread_id].  The body runs with
    [self._lock] held, the sleep included, so it is one transition. *)
Definition wait (E : Env) (thread_id : nat) : M t unit :=
  self <- get_self ;;
  match last_call self !! thread_id with
  | Some last =>
      t1 <- time_time E ;;
      let elapsed := (t1 - last)%Q in
      if Qlt_bool elapsed (delay self)
      then time_sleep E (delay self - elapsed)%Q
      else ret tt
  | None => ret tt
  end ;;
  t2 <- time_time E ;;
  set_self {| delay := delay self; last_call := <[thread_id := t2]> (last_call self) |}.

End RateLimiter.

(** ** Requests to the collaborators *)

Section Requests.
Context {O : Type} (E : Env).

(** [requests.post(url, data=..., auth=auth, headers=...)] *)
Definition http_post (url : string) (auth : string * string) : M O Response :=
  elapse E ;;
  tr <- get_trace ;;
  emit (EvPost url) ;;
  lift (requests_post E tr url auth).

(** [requests.get(endpoint, headers=headers)] *)
Definition http_get (endpoint : string) (headers : gmap string string) : M O Response :=
  elapse E ;;
  tr <- get_trace ;;
  emit (EvGet endpoint (headers !! "Authorization")) ;;
  lift (requests_get E tr endpoint headers).

(** [collection.insert_one(doc)]: the document is in the collection when
    the call returns. *)
Definition collection_insert_one (doc : json) : M O unit :=
  elapse E ;;
  tr <- get_trace ;;
  emit (EvInsertOne doc) ;;
  match insert_one E tr doc with
  | Some e => raise e
  | None =>
      fun s =>
        let w := snd s in
        (Ok tt, (fst s, {| now := now w; trace := trace w; patents := patents w ++ [doc] |}))
  end.

(** [client.embeddings.create(input=..., model=..., dimensions=1536)]:
    the list [response.data] of embeddings. *)
Definition openai_embeddings_create (input : json) : M O (list (list Q)) :=
  elapse E ;;
  tr <- get_trace ;;
  emit (EvEmbed input) ;;
  lift (embeddings_create E tr input).

(** [cf_client.vectorize.indexes.insert(...)] with one vector in the body. *)
Definition cf_vectorize_insert (id : json) (values : list Q) : M O json :=
  elapse E ;;
  tr <- get_trace ;;
  emit (EvVectorInsert id values) ;;
  lift (vectorize_insert E tr id values).

(** An f-string field [{v}]: a string is inserted as it is. *)
Definition format_value (v : json) : string :=
  match v with
  | JStr s => s
  | _ => py_str E v
  end.
End Requests.

(** Runs the methods of an object [o] from code that holds it in a local
    variable. *)
Definition with_object {O A} (o : O) (m : M O A) : M unit A :=
  fun s => (fst (m (o, snd s)), (tt, snd (snd (m (o, snd s))))).

Fixpoint for_each {O A} (items : list A) (body : A -> M O unit) : M O unit :=
  match items with
  | [] => ret tt
  | x :: rest => body x ;; for_each rest body
  end.

(** ** The worker pool

    [executor.submit(task, item)] for every item, then the futures are
    awaited.  A future holds either the value the task returned or the
    exception it raised.  The tasks are run one after the other on the
    shared state, which is the schedule without interleaving; what is
    proved of the pool below (one future for each item) holds of every
    schedule.  The interleaving of [ensure_token] has a model of its own,
    [Workers]. *)

Inductive future (A : Type) : Type :=
| Returned (a : A)
| Excepted (e : exn).
Arguments Returned {A} a.
Arguments Excepted {A} e.

(** [future.exception()] *)
Definition exception {A} (f : future A) : option exn :=
  match f with Returned _ => None | Excepted e => Some e end.

(** [future.result()] *)
Definition future_result {A} (f : future A) : result A :=
  match f with Returned a => Ok a | Excepted e => Raise e end.

Definition run_task {O A} (task : M O A) : M O (future A) :=
  fun s =>
    match task s with
    | (Ok a, s') => (Ok (Returned a), s')
    | (Raise e, s') => (Ok (Excepted e), s')
    end.

Fixpoint submit_all {O I A} (task : I -> M O A) (items : list I) : M O (list (future A)) :=
  match items with
  | [] => ret []
  | x :: rest =>
      f <- run_task (task x) ;;
      fs <- submit_all task rest ;;
      ret (f :: fs)
  end.

(** ** [main.py] *)

Module Harvest.

Definition MAX_THREADS : nat := 20.

(** Defined by the script and used nowhere; no [RateLimiter] is created. *)
Definition RATE_LIMIT_DELAY : Q := 0.

Definition auth_url : string := "https://ops.epo.org/3.2/auth/accesstoken".

Definition get_oauth_token {O} (E : Env) (consumer_key consumer_secret : string) : M O json :=
  try_except
    (resp <- http_post E auth_url (consumer_key, consumer_secret) ;;
     lift (raise_for_status resp) ;;
     data <- lift (json_body resp) ;;
     shown <- lift (py_getitem data "access_token") ;;
     print ("OAuth token obtained: " +:+ format_value E shown) ;;
     lift (py_getitem data "access_token"))
    is_Exception
    (fun e =>
       logging ERROR "Failed to obtain OAuth token" (Some e) ;;
       ret (JStr "")).

Record EPOClient : Type := {
  consumer_key : string;
  consumer_secret : string;
  token : json;
  token_acquired_time : Q;
  token_valid_for : Q;
  base_url : string;
  headers : gmap string string
}.

Definition bearer (E : Env) (tok : json) : string := "Bearer " +:+ format_value E tok.

(** [EPOClient.__init__] *)
Definition init (E : Env) (key secret : string) : M unit EPOClient :=
  tok <- get_oauth_token E key secret ;;
  t <- time_time E ;;
  ret {| consumer_key := key;
         consumer_secret := secret;
         token := tok;
         token_acquired_time := t;
         token_valid_for := 20 * 60;
         base_url := "https://ops.epo.org/3.2/rest-services";
         headers := {[ "accept" := "application/json"; "Authorization" := bearer E tok ]} |}.

Definition set_token (tok : json) (c : EPOClient) : EPOClient :=
  {| consumer_key := consumer_key c; consumer_secret := consumer_secret c;
     token := tok; token_acquired_time := token_acquired_time c;
     token_valid_for := token_valid_for c; base_url := base_url c;
     headers := headers c |}.

Definition set_header (k v : string) (c : EPOClient) : EPOClient :=
  {| consumer_key := consumer_key c; consumer_secret := consumer_secret c;
     token := token c; token_acquired_time := token_acquired_time c;
     token_valid_for := token_valid_for c; base_url := base_url c;
     headers := <[k := v]> (headers c) |}.

Definition set_token_acquired_time (t : Q) (c : EPOClient) : EPOClient :=
  {| consumer_key := consumer_key c; consumer_secret := consumer_secret c;
     token := token c; token_acquired_time := t;
     token_valid_for := token_valid_for c; base_url := base_url c;
     headers := headers c |}.

Definition modify_self {O} (f : O -> O) : M O unit :=
  fun s => (Ok tt, (f (fst s), snd s)).

(** The test of [ensure_token]:
    [(time.time() - self.token_acquired_time) >= (self.token_valid_for - 60)] *)
Definition refresh_due (c : EPOClient) (t : Q) : bool :=
  Qle_bool (token_valid_for c - 60) (t - token_acquired_time c).

Definition ensure_token (E : Env) : M EPOClient unit :=
  t <- time_time E ;;
  self <- get_self ;;
  if refresh_due self t then
    tok <- get_oauth_token E (consumer_key self) (consumer_secret self) ;;
    modify_self (set_token tok) ;;
    modify_self (set_header "Authorization" (bearer E tok)) ;;
    t' <- time_time E ;;
    modify_self (set_token_acquired_time t')
  else ret tt.

Definition search_patents (E : Env) (keyword : string) : M EPOClient json :=
  ensure_token E ;;
  self <- get_self ;;
  let encoded_keyword := quote E ("ti=" +:+ keyword) in
  let endpoint :=
    base_url self +:+ "/published-data/search?Range=1-100&q=" +:+ encoded_keyword in
  print ("Requesting URL: " +:+ endpoint) ;;
  print "Headers" ;;
  try_except
    (response <- http_get E endpoint (headers self) ;;
     lift (raise_for_status response) ;;
     print "Response status code" ;;
     lift (json_body response))
    is_RequestException
    (fun e =>
       logging ERROR ("Error fetching data for keyword '" +:+ keyword +:+ "'") (Some e) ;;
       (* [e.response.content]: every RequestException has the attribute
          [response], and it is [None] unless a response was attached *)
       match e with
       | RequestException (Some body) =>
           print ("Response content: " +:+ body) ;; ret JNull
       | _ => raise AttributeError
       end).

Definition record (patent_number : string) (abstract : json) : json :=
  JObj [("patentNumber", JStr patent_number); ("abstract", abstract)].

Definition no_abstract : json := JStr "No abstract available".
Definition fetch_failed : json := JStr "Abstract fetch failed".

(** The chain of [.get] calls on the decoded body of the abstract. *)
Definition abstract_of (data : json) : result json :=
  match py_get data "ops:world-patent-data" (JObj []) with
  | Raise e => Raise e
  | Ok d1 =>
  match py_get d1 "exchange-documents" (JObj []) with
  | Raise e => Raise e
  | Ok d2 =>
  match py_get d2 "exchange-document" (JObj []) with
  | Raise e => Raise e
  | Ok d3 =>
  match py_get d3 "abstract" (JObj []) with
  | Raise e => Raise e
  | Ok d4 =>
  match py_get d4 "p" (JObj []) with
  | Raise e => Raise e
  | Ok d5 => py_get d5 "$" no_abstract
  end end end end end.

Definition get_abstract (E : Env) (patent_number : string) (patent_type : json)
  : M EPOClient json :=
  ensure_token E ;;
  self <- get_self ;;
  let endpoint :=
    base_url self +:+ "/published-data/publication/" +:+ format_value E patent_type
      +:+ "/" +:+ patent_number +:+ "/abstract" in
  try_except
    (response <- http_get E endpoint (headers self) ;;
     lift (raise_for_status response) ;;
     data <- lift (json_body response) ;;
     abstract <- lift (abstract_of data) ;;
     ret (record patent_number abstract))
    is_RequestException
    (fun e =>
       logging ERROR ("Error fetching abstract for patent " +:+ patent_number) (Some e) ;;
       ret (record patent_number fetch_failed)).

(** [doc_id.get(k, {}).get("$", "")] *)
Definition field (doc_id : json) (k : string) : result json :=
  match py_get doc_id k (JObj []) with
  | Raise e => Raise e
  | Ok f => py_get f "$" (JStr "")
  end.

(** Lines 143 to 148 of [process_keyword]: the identifier and the type of
    one matched reference. *)
Definition identify (E : Env) (doc : json) : result (string * json) :=
  match py_get doc "document-id" (JObj []) with
  | Raise e => Raise e
  | Ok doc_id =>
  match field doc_id "country" with
  | Raise e => Raise e
  | Ok country =>
  match field doc_id "doc-number" with
  | Raise e => Raise e
  | Ok number =>
  match field doc_id "kind" with
  | Raise e => Raise e
  | Ok kind =>
      let patent_number :=
        format_value E country +:+ format_value E number +:+ format_value E kind in
      match py_get doc_id "@document-id-type" (JStr "") with
      | Raise e => Raise e
      | Ok patent_type => Ok (patent_number, patent_type)
      end
  end end end end.

(** The body of the loop over the matched references. *)
Definition process_doc (E : Env) (doc : json) : M EPOClient unit :=
  id <- lift (identify E doc) ;;
  abstract_data <- get_abstract E (fst id) (snd id) ;;
  collection_insert_one E abstract_data ;;
  logging INFO ("Processed patent: " +:+ fst id) None.

(** The chain of [.get] calls on the search result. *)
Definition patent_docs_of (results : json) : result json :=
  match py_get results "ops:world-patent-data" (JObj []) with
  | Raise e => Raise e
  | Ok d1 =>
  match py_get d1 "ops:biblio-search" (JObj []) with
  | Raise e => Raise e
  | Ok d2 =>
  match py_get d2 "ops:search-result" (JObj []) with
  | Raise e => Raise e
  | Ok d3 => py_get d3 "ops:publication-reference" (JArr [])
  end end end.

Definition process_keyword (E : Env) (keyword : string) : M EPOClient unit :=
  results <- search_patents E keyword ;;
  if negb (truthy results) then ret tt
  else
    try_except
      (patent_docs <- lift (patent_docs_of results) ;;
       if negb (truthy patent_docs) then ret tt
       else
         logging INFO ("Processing patents for keyword '" +:+ keyword +:+ "':") None ;;
         docs <- lift (py_slice 100 patent_docs) ;;
         for_each docs (process_doc E))
      is_Exception
      (fun e =>
         logging ERROR ("Error processing results for keyword '" +:+ keyword +:+ "'") (Some e)).

(** The loop over [as_completed(futures)] of [main]. *)
Definition report_exceptions {O A} (futures : list (future A)) : M O unit :=
  for_each futures (fun f =>
    match exception f with
    | Some e => logging ERROR "Error in thread" (Some e)
    | None => ret tt
    end).

(** [main], given the credentials of the environment and the keywords read
    from [keywords.csv].  It returns the futures of the pool as well, which
    the script drops. *)
Definition main (E : Env) (key secret : string) (keywords : list string)
  : M unit (list (future unit)) :=
  epo_client <- init E key secret ;;
  logging INFO "Starting processing" None ;;
  futures <- with_object epo_client (submit_all (process_keyword E) keywords) ;;
  report_exceptions futures ;;
  logging INFO "Processing completed!" None ;;
  ret futures.

End Harvest.

(** ** [embeddeAndStore.py] *)

Module EmbedStore.

Definition MAX_THREADS : nat := 20.

(** The dict [embed_abstract] returns. *)
Record embedded : Type := {
  patentNumber : json;
  embedding : list Q
}.

(** [response.data[0]] *)
Definition first_embedding (data : list (list Q)) : result (list Q) :=
  match data with
  | [] => Raise IndexError
  | v :: _ => Ok v
  end.

(** [embed_abstract]: [None] is Python's [None]. *)
Definition embed_abstract (E : Env) (abstract : json) : M unit (option embedded) :=
  try_except
    (pn <- lift (py_getitem abstract "patentNumber") ;;
     logging INFO ("Embedding abstract for patent: " +:+ format_value E pn) None ;;
     input <- lift (py_getitem abstract "abstract") ;;
     data <- openai_embeddings_create E input ;;
     v <- lift (first_embedding data) ;;
     pn <- lift (py_getitem abstract "patentNumber") ;;
     logging INFO ("Successfully embedded abstract for patent: " +:+ format_value E pn) None ;;
     pn <- lift (py_getitem abstract "patentNumber") ;;
     ret (Some {| patentNumber := pn; embedding := v |}))
    is_Exception
    (fun e =>
       pn <- lift (py_getitem abstract "patentNumber") ;;
       logging ERROR ("Error embedding abstract for patent " +:+ format_value E pn) (Some e) ;;
       ret None).

Definition store_embedding_in_cloudflare (E : Env) (embedded_abstract : embedded)
  : M unit bool :=
  try_except
    (response <- cf_vectorize_insert E (patentNumber embedded_abstract)
                   (embedding embedded_abstract) ;;
     success <- lift (py_get response "success" (JBool false)) ;;
     if truthy success then
       logging INFO ("Successfully stored embedding for patent: "
                     +:+ format_value E (patentNumber embedded_abstract)) None ;;
       ret true
     else
       logging ERROR ("Failed to store embedding for patent "
                      +:+ format_value E (patentNumber embedded_abstract)) None ;;
       ret false)
    is_Exception
    (fun e =>
       logging ERROR ("Error storing embedding for patent "
                      +:+ format_value E (patentNumber embedded_abstract)) (Some e) ;;
       ret false).

Definition process_abstract (E : Env) (abstract : json) : M unit unit :=
  embedded_abstract <- embed_abstract E abstract ;;
  match embedded_abstract with
  | Some e => store_embedding_in_cloudflare E e ;; ret tt
  | None => ret tt
  end.

(** The loop over [as_completed(futures)] of [main]:
    [try: future.result() except Exception as e: logger.error(...)]. *)
Definition check_futures {A} (futures : list (future A)) : M unit unit :=
  for_each futures (fun f =>
    try_except
      (lift (future_result f) ;; ret tt)
      is_Exception
      (fun e => logging ERROR "Error in thread" (Some e))).

(** [main], given the records [get_abstracts_from_mongodb] returned; it
    returns the futures of the pool as well, which the script drops. *)
Definition main (E : Env) (abstracts : list json) : M unit (list (future unit)) :=
  match abstracts with
  | [] =>
      logging ERROR "No abstracts found in MongoDB. Exiting." None ;;
      ret []
  | _ =>
      futures <- submit_all (process_abstract E) abstracts ;;
      check_futures futures ;;
      logging INFO "Processing completed!" None ;;
      ret futures
  end.

End EmbedStore.

(** ** Several workers in [ensure_token]

    The pool shares one [EPOClient].  [ensure_token] holds no lock, and a
    thread gives up the interpreter while its authentication request is on
    the wire, so the steps of the workers interleave.  A worker is at one
    of the program points below; [step] moves one worker to its next
    point. *)

Module Workers.
Import Harvest.

Inductive pc : Type :=
| AtTest                       (* about to evaluate the test *)
| InFlight                     (* in [get_oauth_token], request sent *)
| AtSetToken (tok : json)      (* [get_oauth_token] has returned [tok] *)
| AtSetHeader                  (* about to format the header from [self.token] *)
| AtSetTime
| Finished.

Record sys : Type := {
  shared : EPOClient;
  clock : Q;
  threads : list pc
}.

Inductive action : Type :=
| Tick (d : Q)                     (* [d] seconds pass *)
| Step (tid : nat) (answer : json) (* worker [tid] moves; [answer] is what
                                      [get_oauth_token] returns if it is
                                      the step that ends the request *).



Definition move (E : Env) (s : sys) (tid : nat) (answer : json) (p : pc)
  : EPOClient * pc :=
  let c := shared s in
  match p with
  | AtTest => if refresh_due c (clock s) then (c, InFlight) else (c, Finished)
  | InFlight => (c, AtSetToken answer)
  | AtSetToken tok => (set_token tok c, AtSetHeader)
  | AtSetHeader => (set_header "Authorization" (bearer E (token c)) c, AtSetTime)
  | AtSetTime => (set_token_acquired_time (clock s) c, Finished)
  | Finished => (c, Finished)
  end.

Definition step (E : Env) (a : action) (s : sys) : sys :=
  match a with
  | Tick d => {| shared := shared s; clock := (clock s + d)%Q; threads := threads s |}
  | Step tid answer =>
      match threads s !! tid with
      | Some p =>
          let r := move E s tid answer p in
          {| shared := fst r; clock := clock s; threads := <[tid := snd r]> (threads s) |}
      | None => s
      end
  end.

Definition run (E : Env) (schedule : list action) (s : sys) : sys :=
  fold_left (fun s a => step E a s) schedule s.

(** [n] workers enter [ensure_token] at time [t]. *)
Definition start (c : EPOClient) (t : Q) (n : nat) : sys :=
  {| shared := c; clock := t; threads := replicate n AtTest |}.

End Workers.

(** ** Observations on a trace *)

Definition is_post (e : event) : bool :=
  match e with EvPost _ => true | _ => false end.

(** The number of authentication requests in a trace. *)
Definition auth_calls (tr : list event) : nat := length (List.filter is_post tr).

(** The endpoints of the GET requests in a trace, oldest first. *)
Definition gets (tr : list event) : list string :=
  omap (fun e => match e with EvGet endpoint _ => Some endpoint | _ => None end) tr.

(** The documents given to [insert_one] in a trace, oldest first. *)
Definition inserts (tr : list event) : list json :=
  omap (fun e => match e with EvInsertOne doc => Some doc | _ => None end) tr.

(** The identifiers given to the vector index in a trace. *)
Definition vector_inserts (tr : list event) : list json :=
  omap (fun e => match e with EvVectorInsert id _ => Some id | _ => None end) tr.

(** The exceptions the main thread logged as ["Error in thread"]. *)
Definition thread_errors (tr : list event) : list exn :=
  omap (fun e =>
          match e with
          | EvLog ERROR msg (Some x) =>
              if String.eqb msg "Error in thread" then Some x else None
          | _ => None
          end) tr.

Definition is_message (e : event) : bool :=
  match e with EvLog _ _ _ | EvPrint _ => true | _ => false end.

(** What an authentication reply is worth to [get_oauth_token]: the token,
    when the request went through, the status is not an error, the body
    decodes and has the key [access_token]. *)
Definition granted (r : result Response) : option json :=
  match r with
  | Raise _ => None
  | Ok resp =>
      match raise_for_status resp with
      | Raise _ => None
      | Ok _ =>
          match json_body resp with
          | Raise _ => None
          | Ok data =>
              match py_getitem data "access_token" with
              | Raise _ => None
              | Ok tok => Some tok
              end
          end
      end
  end.

(** The [Authorization] headers the GET requests of a trace carried. *)
Definition authorizations (tr : list event) : list (option string) :=
  omap (fun e => match e with EvGet _ a => Some a | _ => None end) tr.

(** The clock reading of the next [time.time()]. *)
Definition reading (E : Env) (w : World) : Q := (now w + latency E (trace w))%Q.

(** The token the refresh of [ensure_token] obtains in the world [w]. *)
Definition refreshed (E : Env) (c : Harvest.EPOClient) (w : World) : json :=
  from_option id (JStr "")
    (granted (requests_post E (trace w ++ [EvTime (reading E w)]) Harvest.auth_url
                (Harvest.consumer_key c, Harvest.consumer_secret c))).

(** What the three statements [requests.get], [raise_for_status] and
    [response.json()] yield for a reply. *)
Definition decoded (r : result Response) : result json :=
  match r with
  | Raise e => Raise e
  | Ok resp =>
      match raise_for_status resp with
      | Raise e => Raise e
      | Ok _ => json_body resp
      end
  end.

(** The state in which [search_patents] and [get_abstract] send their
    request: after [ensure_token]. *)
Definition ensured (E : Env) (s : Harvest.EPOClient * World) : Harvest.EPOClient * World :=
  snd (Harvest.ensure_token E s).

Definition search_endpoint (E : Env) (c : Harvest.EPOClient) (keyword : string) : string :=
  Harvest.base_url c +:+ "/published-data/search?Range=1-100&q=" +:+ quote E ("ti=" +:+ keyword).

(** The reply to the search request [search_patents] sends from [s]. *)
Definition search_reply (E : Env) (keyword : string) (s : Harvest.EPOClient * World)
  : result Response :=
  let s1 := ensured E s in
  requests_get E
    ((trace (snd s1) ++ [EvPrint ("Requesting URL: " +:+ search_endpoint E (fst s1) keyword)])
       ++ [EvPrint "Headers"])
    (search_endpoint E (fst s1) keyword) (Harvest.headers (fst s1)).

Definition detail_endpoint (E : Env) (c : Harvest.EPOClient) (patent_number : string)
    (patent_type : json) : string :=
  Harvest.base_url c +:+ "/published-data/publication/" +:+ format_value E patent_type
    +:+ "/" +:+ patent_number +:+ "/abstract".

(** The reply to the detail request [get_abstract] sends from [s]. *)
Definition detail_reply (E : Env) (patent_number : string) (patent_type : json)
    (s : Harvest.EPOClient * World) : result Response :=
  let s1 := ensured E s in
  requests_get E (trace (snd s1))
    (detail_endpoint E (fst s1) patent_number patent_type) (Harvest.headers (fst s1)).

(** What [search_patents] makes of the reply to its request. *)
Definition search_outcome (r : result Response) : result json :=
  match decoded r with
  | Ok v => Ok v
  | Raise (RequestException (Some _)) => Ok JNull
  | Raise (RequestException None) => Raise AttributeError
  | Raise e => Raise e
  end.

(** What the body of the [try] of [get_abstract] yields for a reply. *)
Definition detail_attempt (patent_number : string) (r : result Response) : result json :=
  match decoded r with
  | Raise e => Raise e
  | Ok data =>
      match Harvest.abstract_of data with
      | Raise e => Raise e
      | Ok abstract => Ok (Harvest.record patent_number abstract)
      end
  end.

(** What [get_abstract] makes of the reply to its request. *)
Definition detail_outcome (patent_number : string) (r : result Response) : result json :=
  match detail_attempt patent_number r with
  | Ok d => Ok d
  | Raise e =>
      if is_RequestException e
      then Ok (Harvest.record patent_number Harvest.fetch_failed)
      else Raise e
  end.

(** A detail fetch fails when the request, the status check or the decoding
    of the body raises a [requests.RequestException]. *)
Definition fetch_fails (r : result Response) : bool :=
  match decoded r with
  | Raise e => is_RequestException e
  | Ok _ => false
  end.

(** A reply to a detail request that [get_abstract] turns into a record:
    the fetch fails, or the body decodes and has the expected shape. *)
Definition benign (r : result Response) : Prop :=
  fetch_fails r = true
  \/ exists data a, decoded r = Ok data /\ Harvest.abstract_of data = Ok a.

(** The document [process_keyword] stores for the matched reference [doc]
    when the turn of the loop for it starts in the state [s]: its number is
    the identifier of the reference, and its abstract is what the reply to
    the detail request for that identifier gives, the text of a failed
    fetch when the request fails, and what the chain of [.get] reads in the
    decoded body otherwise. *)
Definition stored_for (E : Env) (s : Harvest.EPOClient * World) (doc d : json) : Prop :=
  exists pn pt a,
    Harvest.identify E doc = Ok (pn, pt)
    /\ d = JObj [("patentNumber", JStr pn); ("abstract", a)]
    /\ ((fetch_fails (detail_reply E pn pt s) = true /\ a = JStr "Abstract fetch failed")
        \/ exists data,
             decoded (detail_reply E pn pt s) = Ok data /\ Harvest.abstract_of data = Ok a).

(** The documents the loop over the references [docs] adds to the
    collection from the state [s], in order: one for every turn that ends
    normally, each stored from the state its turn starts in, up to the end
    of the references or to the first turn that raises. *)
Inductive loop_stores (E : Env)
  : list json -> Harvest.EPOClient * World -> list json -> Prop :=
| loop_over s : loop_stores E [] s []
| loop_ended doc docs s e s' :
    Harvest.process_doc E doc s = (Raise e, s') ->
    patents (snd s') = patents (snd s) ->
    loop_stores E (doc :: docs) s []
| loop_turn doc docs s d s' new :
    stored_for E s doc d ->
    Harvest.process_doc E doc s = (Ok tt, s') ->
    patents (snd s') = patents (snd s) ++ [d] ->
    loop_stores E docs s' new ->
    loop_stores E (doc :: docs) s (d :: new).

(** The references the loop of [process_keyword] goes over for a search
    result: [patent_docs[:100]], and none when [process_keyword] returns or
    raises before the loop. *)
Definition matched_references (results : json) : list json :=
  if truthy results then
    match Harvest.patent_docs_of results with
    | Ok patent_docs =>
        if truthy patent_docs then
          match py_slice 100 patent_docs with
          | Ok docs => docs
          | Raise _ => []
          end
        else []
    | Raise _ => []
    end
  else [].

Definition processing_message (keyword : string) : string :=
  "Processing patents for keyword '" +:+ keyword +:+ "':".

Definition processing_error_message (keyword : string) : string :=
  "Error processing results for keyword '" +:+ keyword +:+ "'".

(** The state in which the loop of [process_keyword] starts: after the
    search and the log line that announces the loop. *)
Definition loop_start (E : Env) (keyword : string) (s : Harvest.EPOClient * World)
  : Harvest.EPOClient * World :=
  let s1 := snd (Harvest.search_patents E keyword s) in
  (fst s1,
   {| now := now (snd s1);
      trace := trace (snd s1) ++ [EvLog INFO (processing_message keyword) None];
      patents := patents (snd s1) |}).

Definition search_error_message (keyword : string) : string :=
  "Error fetching data for keyword '" +:+ keyword +:+ "'".


(** ** The report of a run

    Neither script builds a report: [main] logs and returns nothing.  The
    counts of the specification are read off the futures of the pool, the
    only record of the outcome of an item: an item has failed when its
    future holds an exception. *)

Definition is_returned {A} (f : future A) : bool :=
  match f with Returned _ => true | Excepted _ => false end.

Definition is_excepted {A} (f : future A) : bool := negb (is_returned f).

Record BatchReport : Type := {
  submitted : nat;
  succeeded : nat;
  failed : nat
}.

Definition batch_report {I A} (items : list I) (futures : list (future A)) : BatchReport :=
  {| submitted := length items;
     succeeded := length (List.filter is_returned futures);
     failed := length (List.filter is_excepted futures) |}.

(** The future of a task that ended with [r]. *)
Definition future_of {A} (r : result A) : future A :=
  match r with Ok a => Returned a | Raise e => Excepted e end.

(** The exceptions the futures hold, in the order of the futures. *)
Definition exceptions {A} (futures : list (future A)) : list exn := omap exception futures.

(** The reply to the embedding request [embed_abstract] sends for a record
    with the number [pn] and the text [input], from the world [w]. *)
Definition embedding_reply (E : Env) (pn input : json) (w : World) : result (list Q) :=
  match
    embeddings_create E
      (trace w ++ [EvLog INFO ("Embedding abstract for patent: " +:+ format_value E pn) None])
      input
  with
  | Raise e => Raise e
  | Ok data => EmbedStore.first_embedding data
  end.

(** ** Scenarios

    Concrete collaborators and states, on which the properties below are
    run. *)

Module Scenario.
Import Harvest.

(** [urllib.parse.quote] with its default arguments, on the bytes of a
    UTF-8 string: letters, digits and the characters [_.-~/] are kept,
    every other byte becomes [%XX]. *)
Definition hex_digit (d : nat) : Ascii.ascii :=
  if (d <? 10)%nat then Ascii.ascii_of_nat (48 + d) else Ascii.ascii_of_nat (55 + d).

Definition never_quoted (c : Ascii.ascii) : bool :=
  let n := Ascii.nat_of_ascii c in
  ((48 <=? n) && (n <=? 57) || (65 <=? n) && (n <=? 90) || (97 <=? n) && (n <=? 122)
   || (n =? 95) || (n =? 46) || (n =? 45) || (n =? 126) || (n =? 47))%nat.

Fixpoint percent_quote (s : string) : string :=
  match s with
  | EmptyString => EmptyString
  | String c rest =>
      if never_quoted c then String c (percent_quote rest)
      else
        let n := Ascii.nat_of_ascii c in
        String (Ascii.ascii_of_nat 37)
          (String (hex_digit (n / 16)) (String (hex_digit (n mod 16)) (percent_quote rest)))
  end.

(** [repr] of a decoded value whose numbers are integers; a string is shown
    between single quotes, which is what Python prints for a string
    without quotes, backslashes and control characters. *)
Fixpoint py_repr (v : json) : string :=
  match v with
  | JNull => "None"
  | JBool true => "True"
  | JBool false => "False"
  | JNum n => NilZero.string_of_int (Z.to_int n)
  | JStr s => "'" +:+ s +:+ "'"
  | JArr items =>
      "[" +:+ (fix go (l : list json) : string :=
                 match l with
                 | [] => ""
                 | x :: rest =>
                     match rest with
                     | [] => py_repr x
                     | _ => py_repr x +:+ ", " +:+ go rest
                     end
                 end) items +:+ "]"
  | JObj fields =>
      "{" +:+ (fix go (l : list (string * json)) : string :=
                 match l with
                 | [] => ""
                 | (k, x) :: rest =>
                     match rest with
                     | [] => "'" +:+ k +:+ "': " +:+ py_repr x
                     | _ => "'" +:+ k +:+ "': " +:+ py_repr x +:+ ", " +:+ go rest
                     end
                 end) fields +:+ "}"
  end.

(** An environment that answers every authentication request with [post],
    a GET request according to its endpoint, and an embedding request
    according to its input; the stores accept every write; each call to
    the outside takes a tenth of a second. *)
Definition env (post : result Response) (get : string -> result Response)
    (embed : json -> result (list (list Q))) : Env :=
  {| latency := fun _ => 1 # 10;
     requests_post := fun _ _ _ => post;
     requests_get := fun _ endpoint _ => get endpoint;
     insert_one := fun _ _ => None;
     embeddings_create := fun _ input => embed input;
     vectorize_insert := fun _ _ _ => Ok (JObj [("success", JBool true)]);
     quote := percent_quote;
     py_str := fun v => match v with JStr s => s | _ => py_repr v end |}.

Definition reply (status : Z) (body : json) : result Response :=
  Ok {| status_code := status; content := "body"; json_body := Ok body |}.

(** A reply with an error page instead of JSON. *)
Definition error_page (status : Z) : result Response :=
  Ok {| status_code := status; content := "error page";
        json_body := Raise (RequestException None) |}.

Definition grant (tok : string) : result Response :=
  reply 200 (JObj [("access_token", JStr tok)]).

Definition not_found (endpoint : string) : result Response := error_page 404.

Definition no_embedding (input : json) : result (list (list Q)) :=
  Raise (OtherException "APIConnectionError").

(** A client that holds the token ["old"], acquired at time 0. *)
Definition client : EPOClient :=
  {| consumer_key := "key";
     consumer_secret := "secret";
     token := JStr "old";
     token_acquired_time := 0;
     token_valid_for := 20 * 60;
     base_url := "https://ops.epo.org/3.2/rest-services";
     headers := {[ "accept" := "application/json"; "Authorization" := "Bearer old" ]} |}.

(** The world in which the next clock reading is [t]. *)
Definition world_at (t : Q) : World :=
  {| now := t - (1 # 10); trace := []; patents := [] |}.

End Scenario.

Module Cases.
Import Harvest Scenario.

(** The authentication server grants the token ["new"]. *)
Definition env_grant : Env := env (grant "new") not_found no_embedding.

(** The authentication server answers 401. *)
Definition env_denied : Env := env (error_page 401) not_found no_embedding.

(** Every GET request is answered with status 500. *)
Definition env_500 : Env := env (grant "new") (fun _ => error_page 500) no_embedding.

Definition search_url : string :=
  "https://ops.epo.org/3.2/rest-services/published-data/search?Range=1-100&q=ti%3Dbattery".

Definition search_body (refs : list json) : json :=
  JObj [("ops:world-patent-data",
         JObj [("ops:biblio-search",
                JObj [("ops:search-result",
                       JObj [("ops:publication-reference", JArr refs)])])])].

Definition reference (country number kind : string) : json :=
  JObj [("@family-id", JStr "1");
        ("document-id",
         JObj [("@document-id-type", JStr "docdb");
               ("country", JObj [("$", JStr country)]);
               ("doc-number", JObj [("$", JStr number)]);
               ("kind", JObj [("$", JStr kind)])])].

Definition abstract_body (text : string) : json :=
  JObj [("ops:world-patent-data",
         JObj [("exchange-documents",
                JObj [("exchange-document",
                       JObj [("abstract", JObj [("p", JObj [("$", JStr text)])])])])])].

(** The search finds one reference without a [document-id]; the detail
    requests are answered 404. *)
Definition env_blank : Env :=
  env (grant "new")
      (fun endpoint =>
         if String.eqb endpoint search_url then reply 200 (search_body [JObj []])
         else error_page 404)
      no_embedding.

Definition first_url : string :=
  "https://ops.epo.org/3.2/rest-services/published-data/publication/docdb/EP1000A1/abstract".

(** The detail request for [EP1000A1] is answered 404, every other detail
    request with an abstract. *)
Definition env_one_missing : Env :=
  env (grant "new")
      (fun endpoint =>
         if String.eqb endpoint first_url then error_page 404
         else reply 200 (abstract_body "A battery."))
      no_embedding.

Definition two_references : list json :=
  [reference "EP" "1000" "A1"; reference "US" "2000" "B2"].

Definition second_url : string :=
  "https://ops.epo.org/3.2/rest-services/published-data/publication/docdb/US2000B2/abstract".

(** A body with abstracts in two languages: [abstract] is a list. *)
Definition two_abstracts_body : json :=
  JObj [("ops:world-patent-data",
         JObj [("exchange-documents",
                JObj [("exchange-document",
                       JObj [("abstract",
                              JArr [JObj [("@lang", JStr "en");
                                          ("p", JObj [("$", JStr "A battery.")])];
                                    JObj [("@lang", JStr "fr");
                                          ("p", JObj [("$", JStr "Une pile.")])]])])])])].

(** The search finds two references; the detail request for [EP1000A1] is
    answered with abstracts in two languages, the other one with a single
    abstract. *)
Definition env_two_languages : Env :=
  env (grant "new")
      (fun endpoint =>
         if String.eqb endpoint search_url then reply 200 (search_body two_references)
         else if String.eqb endpoint first_url then reply 200 two_abstracts_body
         else reply 200 (abstract_body "A battery."))
      no_embedding.

End Cases.

Module Limiters.

(** A limiter without delay, last called by thread 7 at time 3. *)
Definition idle : RateLimiter.t :=
  {| RateLimiter.delay := 0; RateLimiter.last_call := {[ 7%nat := 3%Q ]} |}.

(** Two calls a second, last called by thread 7 at time 10. *)
Definition paced : RateLimiter.t :=
  {| RateLimiter.delay := 1 / 2; RateLimiter.last_call := {[ 7%nat := 10%Q ]} |}.

End Limiters.

(** ** [read_first_n_keywords] *)

Module Keywords.

(** What reading the keywords file gives: the rows [csv.reader] yields,
    then the end of the file, or the exception [failure] ([open] raising is
    a failure before any row). *)
Record csv_file : Type := {
  rows : list (list string);
  failure : option exn
}.

(** The loop over the rows.  [clean] is [str.strip] followed by
    [str.lower], and [keywords] the set built so far. *)
Fixpoint collect (clean : string -> string) (n : nat) (keywords : gset string)
    (rows : list (list string)) : gset string :=
  match rows with
  | [] => keywords
  | row :: rest =>
      match row with
      | cell :: _ =>
          if decide (size keywords < n)%nat
          then collect clean n (keywords ∪ {[ clean cell ]}) rest
          else collect clean n keywords rest
      | [] => collect clean n keywords rest
      end
  end.

(** [read_first_n_keywords]: [list(keywords)], in the order the set gives,
    or the empty list when reading raised. *)
Definition read_first_n_keywords {O} (clean : string -> string) (file : csv_file) (n : nat)
  : M O (list string) :=
  match failure file with
  | Some e =>
      logging ERROR "Error reading keywords file" (Some e) ;;
      ret []
  | None => ret (elements (collect clean n ∅ (rows file)))
  end.

(** The first cells of the rows that have one, cleaned: the keywords of
    the file, in the order of the rows. *)
Definition cells (clean : string -> string) (rows : list (list string)) : list string :=
  omap (fun row => match row with cell :: _ => Some (clean cell) | [] => None end) rows.

(** [main] of [main.py] with its keywords read from the file. *)
Definition main (E : Env) (clean : string -> string) (key secret : string) (file : csv_file)
  : M unit (list (future unit)) :=
  epo_client <- Harvest.init E key secret ;;
  keywords <- read_first_n_keywords clean file 1000 ;;
  logging INFO "Starting processing" None ;;
  futures <- with_object epo_client (submit_all (Harvest.process_keyword E) keywords) ;;
  Harvest.report_exceptions futures ;;
  logging INFO "Processing completed!" None ;;
  ret futures.

End Keywords.

(** ** [get_abstracts_from_mongodb] *)

Module Abstracts.

(** The projection [{"_id": 0, "patentNumber": 1, "abstract": 1}] of a
    document. *)
Definition projected (doc : json) : json :=
  match doc with
  | JObj fields =>
      JObj (List.filter
              (fun kv => String.eqb (fst kv) "patentNumber" || String.eqb (fst kv) "abstract")
              fields)
  | _ => doc
  end.

(** [get_abstracts_from_mongodb]: the projected documents of the
    collection, or the empty list when the client or the query raised
    [failure]. *)
Definition get_abstracts_from_mongodb (failure : option exn) : M unit (list json) :=
  match failure with
  | Some e =>
      logging ERROR "Error fetching abstracts from MongoDB" (Some e) ;;
      ret []
  | None =>
      fun s =>
        (logging INFO "Fetched abstracts from MongoDB." None ;;
         ret (map projected (patents (snd s)))) s
  end.

(** [main] of [embeddeAndStore.py] with its first step. *)
Definition main (E : Env) (failure : option exn) : M unit (list (future unit)) :=
  abstracts <- get_abstracts_from_mongodb failure ;;
  EmbedStore.main E abstracts.

End Abstracts.

(** ** Chains of [.get]

    [v.get(k1, {}).get(k2, {}) ... .get(last, default)], as [abstract_of]
    and [patent_docs_of] write it. *)
Fixpoint get_chain (keys : list string) (last : string) (default : json) (v : json)
  : result json :=
  match keys with
  | [] => py_get v last default
  | k :: rest =>
      match py_get v k (JObj []) with
      | Raise e => Raise e
      | Ok v' => get_chain rest last default v'
      end
  end.

(** The value under a path of keys, when every step is an object that has
    the key. *)
Fixpoint at_path (keys : list string) (v : json) : option json :=
  match keys with
  | [] => Some v
  | k :: rest =>
      match v with
      | JObj fields =>
          match assoc k fields with
          | Some v' => at_path rest v'
          | None => None
          end
      | _ => None
      end
  end.

Definition is_object (v : json) : bool :=
  match v with JObj _ => true | _ => false end.

Definition abstract_keys : list string :=
  ["ops:world-patent-data"; "exchange-documents"; "exchange-document"; "abstract"; "p"].

Definition references_keys : list string :=
  ["ops:world-patent-data"; "ops:biblio-search"; "ops:search-result"].

(** The calls of [wait] by the threads [tids], one after the other (the
    lock admits one caller at a time). *)
Fixpoint waits (E : Env) (tids : list nat) : M RateLimiter.t unit :=
  match tids with
  | [] => ret tt
  | tid :: rest => RateLimiter.wait E tid ;; waits E rest
  end.

(** The header [ensure_token] keeps in step with the token. *)
Definition authorized (E : Env) (c : Harvest.EPOClient) : Prop :=
  Harvest.headers c !! "Authorization" = Some (Harvest.bearer E (Harvest.token c)).

(** The sleep a call of [wait] asks for: none at the first call of the
    thread, or when the delay has passed since its last call. *)
Definition requested_sleep (E : Env) (self : RateLimiter.t) (w : World) (tid : nat)
  : option Q :=
  match RateLimiter.last_call self !! tid with
  | None => None
  | Some last =>
      if RateLimiter.Qlt_bool (reading E w - last) (RateLimiter.delay self)
      then Some (RateLimiter.delay self - (reading E w - last))%Q
      else None
  end.

(** What [ensure_token] keeps of a client [c0]: the header in step with the
    token, the base URL and the validity. *)
Definition kept (E : Env) (c0 c : Harvest.EPOClient) : Prop :=
  authorized E c
  /\ Harvest.base_url c = Harvest.base_url c0
  /\ Harvest.token_valid_for c = Harvest.token_valid_for c0.

(** The inputs of the embedding requests in a trace, oldest first. *)
Definition embeds (tr : list event) : list json :=
  omap (fun e => match e with EvEmbed input => Some input | _ => None end) tr.

(** A document as [get_abstract] builds it. *)
Definition is_record (d : json) : Prop :=
  exists pn a, d = Harvest.record pn a.

(** A record [embed_abstract] can name in its log lines. *)
Definition has_number (abstract : json) : Prop :=
  exists pn, py_getitem abstract "patentNumber" = Ok pn.

(** ** Further scenarios *)

Module Examples.
Import Harvest Scenario Cases.

(** No GET request gets through. *)
Definition env_offline : Env :=
  env (grant "new") (fun _ => Raise (RequestException None)) no_embedding.

(** A search result with a single reference, given as an object and not as
    a list of one. *)
Definition single_reference_body : json :=
  JObj [("ops:world-patent-data",
         JObj [("ops:biblio-search",
                JObj [("ops:search-result",
                       JObj [("ops:publication-reference",
                              reference "EP" "1000" "A1")])])])].

Definition env_single : Env :=
  env (grant "new")
      (fun endpoint =>
         if String.eqb endpoint search_url then reply 200 single_reference_body
         else reply 200 (abstract_body "A battery."))
      no_embedding.

(** The search finds two references; the detail request for [EP1000A1] is
    answered 404, the other one with an abstract. *)
Definition env_found : Env :=
  env (grant "new")
      (fun endpoint =>
         if String.eqb endpoint search_url then reply 200 (search_body two_references)
         else if String.eqb endpoint first_url then error_page 404
         else reply 200 (abstract_body "A battery."))
      no_embedding.

(** The embedding service answers every request with one embedding. *)
Definition env_embedding : Env :=
  env (grant "new") not_found (fun _ => Ok [[1 # 2; 1 # 3]]).

(** [str.strip] and [str.lower] on ASCII text: the white space stripped is
    the ASCII white space of Python (tab to carriage return, the four
    separators and the space), and the letters lowered are [A] to [Z]. *)
Definition is_space (c : Ascii.ascii) : bool :=
  let n := Ascii.nat_of_ascii c in
  ((9 <=? n) && (n <=? 13) || (28 <=? n) && (n <=? 32))%nat.

Definition lower_char (c : Ascii.ascii) : Ascii.ascii :=
  let n := Ascii.nat_of_ascii c in
  if (65 <=? n)%nat && (n <=? 90)%nat then Ascii.ascii_of_nat (n + 32) else c.

Fixpoint lower (s : string) : string :=
  match s with
  | EmptyString => EmptyString
  | String c rest => String (lower_char c) (lower rest)
  end.

Fixpoint lstrip (s : string) : string :=
  match s with
  | EmptyString => EmptyString
  | String c rest => if is_space c then lstrip rest else s
  end.

Definition reversed (s : string) : string :=
  String.string_of_list_ascii (List.rev (String.list_ascii_of_string s)).

Definition strip (s : string) : string := reversed (lstrip (reversed (lstrip s))).

Definition clean (s : string) : string := lower (strip s).

(** A keywords file of four rows, one of them empty, with two different
    keywords. *)
Definition keywords_file : Keywords.csv_file :=
  {| Keywords.rows := [["Battery "; "x"]; []; [" battery"]; ["Solar"]];
     Keywords.failure := None |}.

(** The keywords file is missing. *)
Definition missing_file : Keywords.csv_file :=
  {| Keywords.rows := []; Keywords.failure := Some (OtherException "FileNotFoundError") |}.

(** Two harvested records, the first with the text of a failed fetch. *)
Definition harvested : list json :=
  [record "EP1000A1" fetch_failed; record "US2000B2" (JStr "A battery.")].

End Examples.

(** * Properties *)

Local Open Scope Q_scope.

Lemma sleeps_app (tr1 tr2 : list event) : sleeps (tr1 ++ tr2) = sleeps tr1 ++ sleeps tr2.
Proof. unfold sleeps. apply omap_app. Qed.

Lemma Qlt_bool_true (a b : Q) : RateLimiter.Qlt_bool a b = true -> a < b.
Proof.
  unfold RateLimiter.Qlt_bool. intros H. apply negb_true_iff in H.
  apply Qnot_le_lt. intros Hle. apply Qle_bool_iff in Hle. congruence.
Qed.

Lemma Qlt_bool_false (a b : Q) : RateLimiter.Qlt_bool a b = false -> b <= a.
Proof.
  unfold RateLimiter.Qlt_bool. intros H. apply negb_false_iff in H.
  now apply Qle_bool_iff.
Qed.

(** C9. Every call of [wait] by a thread returns only when at least [delay]
    seconds have passed since the time stamp the same thread left at its
    previous call; the time stamps of the other threads are neither read
    nor changed; and with a zero delay no call sleeps.  The clock is
    assumed not to run backwards ([latency] is not negative). *)
Theorem wait_paces_each_caller (E : Env) (self : RateLimiter.t) (w : World) (tid : nat) :
  (forall tr, 0 <= latency E tr) ->
  exists self' w',
    RateLimiter.wait E tid (self, w) = (Ok tt, (self', w'))
    /\ RateLimiter.delay self' = RateLimiter.delay self
    /\ RateLimiter.last_call self' = <[tid := now w']> (RateLimiter.last_call self)
    /\ (forall last, RateLimiter.last_call self !! tid = Some last ->
          last + RateLimiter.delay self <= now w')
    /\ (forall other, other <> tid ->
          RateLimiter.last_call self' !! other = RateLimiter.last_call self !! other)
    /\ (RateLimiter.delay self == 0 ->
        (forall last, RateLimiter.last_call self !! tid = Some last -> last <= now w) ->
        sleeps (trace w') = sleeps (trace w)).
Proof.
  intros Hlat.
  cbv [RateLimiter.wait bind get_self time_time time_sleep elapse get_trace
       advance emit ret set_self].
  cbn [fst snd now trace patents].
  destruct (RateLimiter.last_call self !! tid) as [last|] eqn:Hlast.
  - destruct (RateLimiter.Qlt_bool _ _) eqn:Hcmp; cbn [fst snd now trace patents] in *;
      (do 2 eexists; split; [reflexivity|]);
      cbn [now trace RateLimiter.delay RateLimiter.last_call]; repeat split.
    + intros last' [= <-]. apply Qlt_bool_true in Hcmp.
      pose proof (Hlat (trace w)).
      match goal with |- _ <= _ + latency E ?t => pose proof (Hlat t) end.
      lra.
    + intros other Hne. by rewrite lookup_insert_ne.
    + intros Hz Hpast. exfalso. apply Qlt_bool_true in Hcmp.
      pose proof (Hpast last eq_refl). pose proof (Hlat (trace w)). lra.
    + intros last' [= <-]. apply Qlt_bool_false in Hcmp.
      match goal with |- _ <= _ + latency E ?t => pose proof (Hlat t) end.
      lra.
    + intros other Hne. by rewrite lookup_insert_ne.
    + intros _ _. rewrite !sleeps_app. cbn. by rewrite !app_nil_r.
  - do 2 eexists; split; [reflexivity|];
      cbn [now trace RateLimiter.delay RateLimiter.last_call]; repeat split.
    + intros last [=].
    + intros other Hne. by rewrite lookup_insert_ne.
    + intros _ _. rewrite !sleeps_app. cbn. by rewrite !app_nil_r.
Qed.

Section TokenFacts.
Import Harvest.
Context (E : Env).

Lemma auth_calls_app (tr1 tr2 : list event) :
  auth_calls (tr1 ++ tr2) = (auth_calls tr1 + auth_calls tr2)%nat.
Proof. unfold auth_calls. by rewrite List.filter_app, length_app. Qed.

Lemma gets_app (tr1 tr2 : list event) : gets (tr1 ++ tr2) = gets tr1 ++ gets tr2.
Proof. apply omap_app. Qed.

Lemma inserts_app (tr1 tr2 : list event) : inserts (tr1 ++ tr2) = inserts tr1 ++ inserts tr2.
Proof. apply omap_app. Qed.

(** [get_oauth_token] never raises: it sends one request and returns the
    granted token, or the empty string. *)
Lemma get_oauth_token_spec {O} (key secret : string) (o : O) (w : World) :
  exists ev,
    is_message ev = true /\
    get_oauth_token E key secret (o, w)
    = (Ok (from_option id (JStr "") (granted (requests_post E (trace w) auth_url (key, secret)))),
       (o, {| now := now w + latency E (trace w);
              trace := (trace w ++ [EvPost auth_url]) ++ [ev];
              patents := patents w |})).
Proof.
  cbv [get_oauth_token try_except bind http_post elapse get_trace advance emit
       lift logging print ret granted is_Exception].
  cbn [fst snd now trace patents].
  destruct (requests_post E (trace w) auth_url (key, secret)) as [resp|e];
    [|eexists; split; [|reflexivity]; reflexivity].
  destruct (raise_for_status resp) as [[]|e];
    [|eexists; split; [|reflexivity]; reflexivity].
  destruct (json_body resp) as [data|e];
    [|eexists; split; [|reflexivity]; reflexivity].
  destruct (py_getitem data "access_token") as [tok|e];
    eexists; (split; [|reflexivity]); reflexivity.
Qed.

Lemma ensure_token_spec (c : EPOClient) (w : World) :
  exists c' w',
    ensure_token E (c, w) = (Ok tt, (c', w'))
    /\ base_url c' = base_url c
    /\ token_valid_for c' = token_valid_for c
    /\ patents w' = patents w
    /\ gets (trace w') = gets (trace w)
    /\ inserts (trace w') = inserts (trace w)
    /\ (if refresh_due c (reading E w)
        then auth_calls (trace w') = S (auth_calls (trace w))
             /\ token c' = refreshed E c w
             /\ headers c' = <["Authorization" := bearer E (refreshed E c w)]> (headers c)
             /\ token_acquired_time c' = now w'
        else c' = c /\ auth_calls (trace w') = auth_calls (trace w)).
Proof.
  cbv [ensure_token bind time_time elapse get_trace advance emit ret get_self modify_self].
  cbn [fst snd now trace patents]. fold (reading E w).
  destruct (refresh_due c (reading E w)) eqn:Hdue.
  - destruct (get_oauth_token_spec (consumer_key c) (consumer_secret c) c
                {| now := reading E w; trace := trace w ++ [EvTime (reading E w)];
                   patents := patents w |}) as (ev & Hev & ->).
    cbn [fst snd now trace patents]. fold (refreshed E c w).
    do 2 eexists. split; [reflexivity|].
    cbn [base_url token_valid_for patents trace now token headers token_acquired_time
         set_token set_header set_token_acquired_time].
    rewrite !gets_app, !inserts_app, !auth_calls_app.
    destruct ev; try discriminate Hev; cbn; rewrite ?app_nil_r;
      repeat split; lia.
  - do 2 eexists. split; [reflexivity|]. cbn [patents trace].
    rewrite !gets_app, !inserts_app, !auth_calls_app. cbn. rewrite ?app_nil_r.
    repeat split; lia.
Qed.

Lemma authorizations_app (tr1 tr2 : list event) :
  authorizations (tr1 ++ tr2) = authorizations tr1 ++ authorizations tr2.
Proof. apply omap_app. Qed.

Lemma ensure_token_authorizations (s : EPOClient * World) :
  authorizations (trace (snd (ensured E s))) = authorizations (trace (snd s)).
Proof.
  destruct s as [c w]. unfold ensured.
  cbv [ensure_token bind time_time elapse get_trace advance emit ret get_self modify_self].
  cbn [fst snd now trace patents]. fold (reading E w).
  destruct (refresh_due c (reading E w)).
  - destruct (get_oauth_token_spec (consumer_key c) (consumer_secret c) c
                {| now := reading E w; trace := trace w ++ [EvTime (reading E w)];
                   patents := patents w |}) as (ev & Hev & ->).
    cbn [fst snd now trace patents]. rewrite !authorizations_app.
    destruct ev; try discriminate Hev; cbn; by rewrite ?app_nil_r.
  - cbn [snd trace]. rewrite authorizations_app. cbn. by rewrite app_nil_r.
Qed.

Lemma search_patents_spec (keyword : string) (s : EPOClient * World) :
  exists w',
    search_patents E keyword s
    = (search_outcome (search_reply E keyword s), (fst (ensured E s), w'))
    /\ patents w' = patents (snd s)
    /\ gets (trace w') = gets (trace (snd s)) ++ [search_endpoint E (fst (ensured E s)) keyword]
    /\ inserts (trace w') = inserts (trace (snd s))
    /\ authorizations (trace w')
       = authorizations (trace (snd s)) ++ [headers (fst (ensured E s)) !! "Authorization"].
Proof.
  pose proof (ensure_token_authorizations s) as Hauth.
  unfold search_reply, search_outcome, decoded.
  unfold ensured in *. destruct s as [c w].
  destruct (ensure_token_spec c w) as (c1 & w1 & Hrun & _ & _ & Hpat & Hgets & Hins & _).
  cbv [search_patents bind]. rewrite Hrun in *. cbn [fst snd] in *.
  cbv [try_except bind http_get elapse get_trace advance emit lift logging print ret
       get_self raise is_RequestException].
  cbn [fst snd now trace patents]. fold (search_endpoint E c1 keyword).
  destruct (requests_get E _ _ _) as [resp|e].
  - destruct (raise_for_status resp) as [[]|e] eqn:Hst.
    + destruct (json_body resp) as [v|e].
      * eexists. split; [reflexivity|]. cbn [patents trace].
        rewrite !gets_app, !inserts_app, !authorizations_app, Hgets, Hins, Hauth. cbn.
        by rewrite ?app_nil_r.
      * destruct e as [[body|]| | | | | |]; cbn [fst snd now trace patents];
          (eexists; split; [reflexivity|]); cbn [patents trace];
          rewrite !gets_app, !inserts_app, !authorizations_app, Hgets, Hins, Hauth; cbn;
          by rewrite ?app_nil_r.
    + unfold raise_for_status in Hst. destruct (_ && _); [|discriminate].
      injection Hst as <-. cbn [fst snd now trace patents].
      eexists; split; [reflexivity|]; cbn [patents trace].
      rewrite !gets_app, !inserts_app, !authorizations_app, Hgets, Hins, Hauth; cbn.
      by rewrite ?app_nil_r.
  - destruct e as [[body|]| | | | | |]; cbn [fst snd now trace patents];
      (eexists; split; [reflexivity|]); cbn [patents trace];
      rewrite !gets_app, !inserts_app, !authorizations_app, Hgets, Hins, Hauth; cbn;
      by rewrite ?app_nil_r.
Qed.

Lemma get_abstract_spec (patent_number : string) (patent_type : json) (s : EPOClient * World) :
  exists w',
    get_abstract E patent_number patent_type s
    = (detail_outcome patent_number (detail_reply E patent_number patent_type s),
       (fst (ensured E s), w'))
    /\ patents w' = patents (snd s)
    /\ gets (trace w')
       = gets (trace (snd s))
           ++ [detail_endpoint E (fst (ensured E s)) patent_number patent_type]
    /\ inserts (trace w') = inserts (trace (snd s)).
Proof.
  unfold detail_reply, detail_outcome, detail_attempt, decoded.
  unfold ensured in *. destruct s as [c w].
  destruct (ensure_token_spec c w) as (c1 & w1 & Hrun & _ & _ & Hpat & Hgets & Hins & _).
  cbv [get_abstract bind]. rewrite Hrun in *. cbn [fst snd] in *.
  cbv [try_except bind http_get elapse get_trace advance emit lift logging print ret
       get_self raise].
  cbn [fst snd now trace patents]. fold (detail_endpoint E c1 patent_number patent_type).
  destruct (requests_get E _ _ _) as [resp|e].
  - destruct (raise_for_status resp) as [[]|e].
    + destruct (json_body resp) as [data|e].
      * destruct (abstract_of data) as [a|e].
        -- eexists. split; [reflexivity|]. cbn [patents trace].
           rewrite !gets_app, !inserts_app, Hgets, Hins. cbn. by rewrite ?app_nil_r.
        -- destruct (is_RequestException e); cbn [fst snd now trace patents];
             (eexists; split; [reflexivity|]); cbn [patents trace];
             rewrite !gets_app, !inserts_app, Hgets, Hins; cbn; by rewrite ?app_nil_r.
      * destruct (is_RequestException e); cbn [fst snd now trace patents];
          (eexists; split; [reflexivity|]); cbn [patents trace];
          rewrite !gets_app, !inserts_app, Hgets, Hins; cbn; by rewrite ?app_nil_r.
    + destruct (is_RequestException e); cbn [fst snd now trace patents];
        (eexists; split; [reflexivity|]); cbn [patents trace];
        rewrite !gets_app, !inserts_app, Hgets, Hins; cbn; by rewrite ?app_nil_r.
  - destruct (is_RequestException e); cbn [fst snd now trace patents];
      (eexists; split; [reflexivity|]); cbn [patents trace];
      rewrite !gets_app, !inserts_app, Hgets, Hins; cbn; by rewrite ?app_nil_r.
Qed.

(** One turn of the loop of [process_keyword], in all its outcomes. *)
Lemma process_doc_cases (doc : json) (s : EPOClient * World) :
  match identify E doc with
  | Raise e => process_doc E doc s = (Raise e, s)
  | Ok id =>
      let endpoint := detail_endpoint E (fst (ensured E s)) (fst id) (snd id) in
      exists w1,
        patents w1 = patents (snd s)
        /\ inserts (trace w1) = inserts (trace (snd s))
        /\ gets (trace w1) = gets (trace (snd s)) ++ [endpoint]
        /\ match detail_outcome (fst id) (detail_reply E (fst id) (snd id) s) with
           | Raise e => process_doc E doc s = (Raise e, (fst (ensured E s), w1))
           | Ok d =>
               exists w',
                 inserts (trace w') = inserts (trace (snd s)) ++ [d]
                 /\ gets (trace w') = gets (trace (snd s)) ++ [endpoint]
                 /\ match insert_one E (trace w1) d with
                    | Some e =>
                        process_doc E doc s = (Raise e, (fst (ensured E s), w'))
                        /\ patents w' = patents (snd s)
                    | None =>
                        process_doc E doc s = (Ok tt, (fst (ensured E s), w'))
                        /\ patents w' = patents (snd s) ++ [d]
                    end
           end
  end.
Proof.
  cbv [process_doc bind lift]. destruct (identify E doc) as [id|e]; [|reflexivity].
  destruct (get_abstract_spec (fst id) (snd id) s) as (w1 & -> & Hpat & Hgets & Hins).
  exists w1. do 3 (split; [assumption|]).
  destruct (detail_outcome _ _) as [d|e]; [|reflexivity].
  cbv [collection_insert_one bind elapse get_trace advance emit logging raise].
  cbn [fst snd now trace patents].
  destruct (insert_one E (trace w1) d) as [e|]; cbn [fst snd now trace patents];
    eexists; (split; [|split; [|split; [reflexivity|]]]); cbn [patents trace];
    rewrite ?gets_app, ?inserts_app, ?Hgets, ?Hins, ?Hpat; cbn; by rewrite ?app_nil_r.
Qed.
End TokenFacts.

Section HarvestFacts.
Import Harvest.
Context (E : Env).

Lemma for_each_cons {O A} (body : A -> M O unit) (x : A) (rest : list A) (s : O * World) :
  for_each (x :: rest) body s
  = match body x s with
    | (Ok _, s') => for_each rest body s'
    | (Raise e, s') => (Raise e, s')
    end.
Proof. reflexivity. Qed.

Lemma ensured_base_url (s : EPOClient * World) :
  base_url (fst (ensured E s)) = base_url (fst s).
Proof.
  destruct s as [c w]. unfold ensured.
  destruct (ensure_token_spec E c w) as (c1 & w1 & -> & Hb & _). exact Hb.
Qed.

Lemma detail_endpoint_base (c c' : EPOClient) (pn : string) (pt : json) :
  base_url c = base_url c' -> detail_endpoint E c pn pt = detail_endpoint E c' pn pt.
Proof. unfold detail_endpoint. by intros ->. Qed.

Lemma detail_outcome_fails (pn : string) (r : result Response) :
  fetch_fails r = true -> detail_outcome pn r = Ok (record pn fetch_failed).
Proof.
  unfold fetch_fails, detail_outcome, detail_attempt.
  destruct (decoded r) as [data|e]; [discriminate|]. by intros ->.
Qed.

Lemma detail_outcome_benign (pn : string) (r : result Response) :
  benign r ->
  exists a, detail_outcome pn r = Ok (record pn a)
            /\ (a = fetch_failed \/ exists data, abstract_of data = Ok a).
Proof.
  intros [Hf | (data & a & Hd & Ha)].
  - exists fetch_failed. split; [by apply detail_outcome_fails | by left].
  - exists a. unfold detail_outcome, detail_attempt. rewrite Hd, Ha. split; [done|].
    right. by exists data.
Qed.


(** A turn of the loop whose detail fetch fails stores the sentinel record
    and goes on with the remaining references. *)
Lemma failed_fetch_continues (doc : json) (rest : list json) (s : EPOClient * World)
    (pn : string) (pt : json) :
  identify E doc = Ok (pn, pt) ->
  fetch_fails (detail_reply E pn pt s) = true ->
  (forall tr, insert_one E tr (record pn fetch_failed) = None) ->
  exists w',
    for_each (doc :: rest) (process_doc E) s
    = for_each rest (process_doc E) (fst (ensured E s), w')
    /\ patents w' = patents (snd s) ++ [record pn fetch_failed]
    /\ inserts (trace w') = inserts (trace (snd s)) ++ [record pn fetch_failed].
Proof.
  intros Hid Hfail Hstore.
  pose proof (process_doc_cases E doc s) as H. rewrite Hid in H. cbn [fst snd] in H.
  destruct H as (w1 & _ & _ & _ & H).
  rewrite (detail_outcome_fails pn _ Hfail) in H.
  destruct H as (w' & Hins & _ & H). rewrite Hstore in H. destruct H as [Hrun Hpat].
  exists w'. rewrite for_each_cons, Hrun. done.
Qed.

Lemma py_get_error (v : json) (k : string) (d : json) (e : exn) :
  py_get v k d = Raise e -> e = AttributeError.
Proof. destruct v; cbn; congruence. Qed.

(** The chain of [.get] raises nothing [get_abstract] catches. *)
Lemma abstract_of_error (data : json) (e : exn) :
  abstract_of data = Raise e -> is_RequestException e = false.
Proof.
  unfold abstract_of.
  repeat match goal with
         | |- context [match py_get ?v ?k ?d with _ => _ end] =>
             let H := fresh "H" in
             destruct (py_get v k d) as [?|?] eqn:H;
             [|apply py_get_error in H as ->; by intros [= <-]]
         end.
  intros Hlast. by apply py_get_error in Hlast as ->.
Qed.

Lemma detail_outcome_stored (doc : json) (pn : string) (pt : json) (s : EPOClient * World)
    (d : json) :
  identify E doc = Ok (pn, pt) ->
  detail_outcome pn (detail_reply E pn pt s) = Ok d ->
  stored_for E s doc d.
Proof.
  intros Hid. unfold detail_outcome, detail_attempt, stored_for, fetch_fails.
  destruct (decoded (detail_reply E pn pt s)) as [data|e] eqn:Hdec.
  - destruct (abstract_of data) as [a|e] eqn:Ha.
    + intros [= <-]. exists pn, pt, a. split; [done|]. split; [done|]. right.
      exists data. by split.
    + by rewrite (abstract_of_error data e Ha).
  - destruct (is_RequestException e) eqn:He; [|discriminate].
    intros [= <-]. exists pn, pt, fetch_failed. split; [done|]. split; [done|]. left.
    by rewrite Hdec.
Qed.

Lemma stored_for_outcome (doc d : json) (s : EPOClient * World) :
  stored_for E s doc d ->
  exists pn pt,
    identify E doc = Ok (pn, pt) /\ detail_outcome pn (detail_reply E pn pt s) = Ok d.
Proof.
  intros (pn & pt & a & Hid & -> & Ha). exists pn, pt. split; [exact Hid|].
  unfold detail_outcome, detail_attempt, fetch_fails in *.
  destruct Ha as [[Hf ->] | (data & -> & ->)]; [|done].
  destruct (decoded _) as [data|e]; [discriminate|]. by rewrite Hf.
Qed.

(** What the loop adds to the collection. *)
Lemma for_each_stores (docs : list json) (s : EPOClient * World) :
  exists new,
    patents (snd (snd (for_each docs (process_doc E) s))) = patents (snd s) ++ new
    /\ loop_stores E docs s new.
Proof.
  revert s. induction docs as [|doc docs IH]; intros s.
  - exists []. cbn. rewrite app_nil_r. split; [done | constructor].
  - rewrite for_each_cons. pose proof (process_doc_cases E doc s) as H.
    destruct (identify E doc) as [[pn pt]|e] eqn:Hid.
    + cbn [fst snd] in H. destruct H as (w1 & Hp1 & _ & _ & H).
      destruct (detail_outcome pn _) as [d|e] eqn:Hout.
      * destruct H as (w' & _ & _ & H).
        destruct (insert_one E (trace w1) d) as [e|].
        -- destruct H as [Hrun Hp]. rewrite Hrun. exists []. cbn [fst snd].
           rewrite Hp, app_nil_r. split; [done|]. by eapply loop_ended.
        -- destruct H as [Hrun Hp]. rewrite Hrun.
           destruct (IH (fst (ensured E s), w')) as (new & Hnew & Hall).
           exists (d :: new). cbn [fst snd] in *.
           rewrite Hnew, Hp, <- app_assoc. split; [done|].
           eapply loop_turn; [by eapply detail_outcome_stored | exact Hrun | done | exact Hall].
      * rewrite H. exists []. cbn [fst snd]. rewrite Hp1, app_nil_r.
        split; [done|]. by eapply loop_ended.
    + rewrite H. exists []. cbn [fst snd]. rewrite app_nil_r. split; [done|].
      by eapply loop_ended.
Qed.

Lemma loop_stores_length (docs : list json) (s : EPOClient * World) (new : list json) :
  loop_stores E docs s new -> (length new <= length docs)%nat.
Proof. induction 1; cbn; lia. Qed.

Lemma loop_stores_shape (docs : list json) (s : EPOClient * World) (new : list json) :
  loop_stores E docs s new ->
  Forall (fun d => exists pn a, d = record pn a
                                /\ (a = fetch_failed \/ exists data, abstract_of data = Ok a))
         new.
Proof.
  induction 1 as [| |doc docs s d s' new Hd _ _ _ IH]; constructor; [|exact IH].
  destruct Hd as (pn & pt & a & _ & -> & Ha). exists pn, a. split; [done|].
  destruct Ha as [[_ ->] | (data & _ & Ha)]; [by left | right; by exists data].
Qed.

Lemma matched_references_length (results : json) :
  (length (matched_references results) <= 100)%nat.
Proof.
  unfold matched_references. destruct (truthy results); [|cbn; lia].
  destruct (patent_docs_of results) as [patent_docs|e]; [|cbn; lia].
  destruct (truthy patent_docs); [|cbn; lia].
  destruct patent_docs; cbn [py_slice length]; try lia.
  - rewrite length_map, length_take. lia.
  - rewrite length_take. lia.
Qed.

Lemma search_patents_logs (keyword : string) (s : EPOClient * World) (e : exn) :
  decoded (search_reply E keyword s) = Raise e ->
  is_RequestException e = true ->
  In (EvLog ERROR (search_error_message keyword) (Some e))
     (trace (snd (snd (search_patents E keyword s)))).
Proof.
  unfold search_reply, decoded, ensured. destruct s as [c w].
  destruct (ensure_token_spec E c w) as (c1 & w1 & Hrun & _).
  cbv [search_patents bind]. rewrite Hrun. cbn [fst snd].
  cbv [try_except bind http_get elapse get_trace advance emit lift logging print ret
       get_self raise is_RequestException].
  cbn [fst snd now trace patents]. fold (search_endpoint E c1 keyword).
  fold (search_error_message keyword).
  destruct (requests_get E _ _ _) as [resp|x].
  - destruct (raise_for_status resp) as [[]|x].
    + destruct (json_body resp) as [v|x]; [discriminate|].
      intros [= ->] He. destruct e as [[body|]| | | | | |]; try discriminate He;
        cbn [fst snd trace]; rewrite !in_app_iff; cbn; tauto.
    + intros [= ->] He. destruct e as [[body|]| | | | | |]; try discriminate He;
        cbn [fst snd trace]; rewrite !in_app_iff; cbn; tauto.
  - intros [= ->] He. destruct e as [[body|]| | | | | |]; try discriminate He;
      cbn [fst snd trace]; rewrite !in_app_iff; cbn; tauto.
Qed.

(** When the search fails, [process_keyword] ends where [search_patents]
    ended. *)
Lemma process_keyword_search_failed (keyword : string) (s : EPOClient * World) (e : exn) :
  decoded (search_reply E keyword s) = Raise e ->
  process_keyword E keyword s
  = (match search_outcome (search_reply E keyword s) with
     | Ok _ => Ok tt
     | Raise x => Raise x
     end, snd (search_patents E keyword s)).
Proof.
  intros Hdec. destruct (search_patents_spec E keyword s) as (w' & Hrun & _).
  cbv [process_keyword bind]. rewrite Hrun. unfold search_outcome. rewrite Hdec.
  destruct e as [[body|]| | | | | |]; reflexivity.
Qed.

(** [process_keyword] from the loop on, when the search has found
    references: the loop runs from [loop_start], and an exception that
    ends it is logged. *)
Lemma process_keyword_loop (keyword : string) (s : EPOClient * World) (results : json) :
  fst (search_patents E keyword s) = Ok results ->
  matched_references results <> [] ->
  process_keyword E keyword s
  = match for_each (matched_references results) (process_doc E) (loop_start E keyword s) with
    | (Ok _, s3) => (Ok tt, s3)
    | (Raise e, s3) =>
        (Ok tt,
         (fst s3,
          {| now := now (snd s3);
             trace := trace (snd s3) ++ [EvLog ERROR (processing_error_message keyword) (Some e)];
             patents := patents (snd s3) |}))
    end.
Proof.
  unfold loop_start, processing_message, processing_error_message, matched_references.
  cbv [process_keyword bind].
  destruct (search_patents E keyword s) as [[r|x] [c1 w1]]; [|discriminate].
  cbn [fst snd]. intros [= ->].
  destruct (truthy results); cbn [negb]; [|done].
  cbv [try_except bind lift ret logging emit is_Exception]. cbn [fst snd now trace patents].
  destruct (patent_docs_of results) as [patent_docs|e]; [|done].
  destruct (truthy patent_docs); cbn [negb]; [|done].
  cbn [fst snd now trace patents].
  destruct (py_slice 100 patent_docs) as [docs|e]; [|done]. intros _.
  by destruct (for_each docs (process_doc E) _) as [[[]|e] [c3 w3]].
Qed.

(** [process_keyword] when the search has found no reference to go over. *)
Lemma process_keyword_no_loop (keyword : string) (s : EPOClient * World) (results : json) :
  fst (search_patents E keyword s) = Ok results ->
  matched_references results = [] ->
  patents (snd (snd (process_keyword E keyword s))) = patents (snd s).
Proof.
  unfold matched_references.
  destruct (search_patents_spec E keyword s) as (w1 & Hrun & Hpat & _).
  cbv [process_keyword bind]. rewrite Hrun. cbn [fst snd]. intros ->.
  destruct (truthy results); cbn [negb]; [|done].
  cbv [try_except bind lift ret logging emit is_Exception]. cbn [fst snd now trace patents].
  destruct (patent_docs_of results) as [patent_docs|e]; [|done].
  destruct (truthy patent_docs); cbn [negb]; [|done].
  cbn [fst snd now trace patents].
  destruct (py_slice 100 patent_docs) as [docs|e]; [|done]. by intros ->.
Qed.

Lemma loop_start_patents (keyword : string) (s : EPOClient * World) :
  patents (snd (loop_start E keyword s)) = patents (snd s).
Proof.
  unfold loop_start. destruct (search_patents_spec E keyword s) as (w1 & -> & Hpat & _).
  exact Hpat.
Qed.

(** The documents [process_keyword] adds to the collection: those the loop
    over the matched references of the search result stores, and none
    when the search raises. *)
Lemma process_keyword_stores (keyword : string) (s : EPOClient * World) :
  exists new,
    patents (snd (snd (process_keyword E keyword s))) = patents (snd s) ++ new
    /\ (forall results,
          fst (search_patents E keyword s) = Ok results ->
          loop_stores E (matched_references results) (loop_start E keyword s) new)
    /\ (forall e, fst (search_patents E keyword s) = Raise e -> new = []).
Proof.
  destruct (fst (search_patents E keyword s)) as [results|e] eqn:Hsearch.
  - destruct (matched_references results) as [|doc docs] eqn:Hm.
    + exists []. rewrite (process_keyword_no_loop keyword s results Hsearch Hm), app_nil_r.
      split; [done|]. split; [|done]. intros r [= <-]. rewrite Hm. constructor.
    + assert (Hne : matched_references results <> []) by by rewrite Hm.
      pose proof (process_keyword_loop keyword s results Hsearch Hne) as Hrun.
      destruct (for_each_stores (matched_references results) (loop_start E keyword s))
        as (new & Hnew & Hall).
      rewrite loop_start_patents in Hnew. exists new.
      split; [|split; [by intros r [= <-] | done]].
      rewrite Hrun.
      by destruct (for_each _ _ _) as [[[]|e] [c3 w3]].
  - exists []. rewrite app_nil_r. split; [|split; [done | done]].
    destruct (search_patents_spec E keyword s) as (w1 & Hrun & Hpat & _).
    cbv [process_keyword bind]. rewrite Hrun in *. cbn [fst] in Hsearch.
    by rewrite Hsearch.
Qed.
End HarvestFacts.

Section TokenClaims.
Import Harvest.

Lemma refresh_due_true (c : EPOClient) (t : Q) :
  refresh_due c t = true <-> token_valid_for c - 60 <= t - token_acquired_time c.
Proof. apply Qle_bool_iff. Qed.

Lemma refresh_due_false (c : EPOClient) (t : Q) :
  refresh_due c t = false <-> t - token_acquired_time c < token_valid_for c - 60.
Proof.
  rewrite <- not_true_iff_false, refresh_due_true. split.
  - apply Qnot_le_lt.
  - apply Qlt_not_le.
Qed.

(** C2. [ensure_token] always returns.  When the time since the token was
    acquired is at least the validity minus 60 seconds, it makes exactly one
    authentication request, stores the token it obtained and the matching
    header, and sets the acquisition time to the clock reading taken after
    the request; otherwise it leaves the client as it is and makes no
    request.  The request [search_patents] then sends carries the header of
    the client as [ensure_token] left it.  With a validity of 1200 seconds,
    1145 seconds after the acquisition the token is refreshed, 1000 seconds
    after it is not. *)
Theorem ensure_token_refresh_rule (E : Env) (c : EPOClient) (w : World) :
  exists c' w',
    ensure_token E (c, w) = (Ok tt, (c', w'))
    /\ (token_valid_for c - 60 <= reading E w - token_acquired_time c ->
        auth_calls (trace w') = S (auth_calls (trace w))
        /\ token c' = refreshed E c w
        /\ headers c' !! "Authorization" = Some (bearer E (token c'))
        /\ token_acquired_time c' = now w')
    /\ (reading E w - token_acquired_time c < token_valid_for c - 60 ->
        c' = c /\ auth_calls (trace w') = auth_calls (trace w))
    /\ (forall keyword,
          authorizations (trace (snd (snd (search_patents E keyword (c, w)))))
          = authorizations (trace w) ++ [headers c' !! "Authorization"])
    /\ (token_valid_for c == 1200 -> reading E w - token_acquired_time c == 1145 ->
        auth_calls (trace w') = S (auth_calls (trace w)))
    /\ (token_valid_for c == 1200 -> reading E w - token_acquired_time c == 1000 ->
        c' = c /\ auth_calls (trace w') = auth_calls (trace w)).
Proof.
  destruct (ensure_token_spec E c w) as (c' & w' & Hrun & _ & _ & _ & _ & _ & Hcase).
  exists c', w'. split; [exact Hrun|].
  assert (Hdue : token_valid_for c - 60 <= reading E w - token_acquired_time c ->
                 auth_calls (trace w') = S (auth_calls (trace w))
                 /\ token c' = refreshed E c w
                 /\ headers c' !! "Authorization" = Some (bearer E (token c'))
                 /\ token_acquired_time c' = now w').
  { intros H. apply refresh_due_true in H. rewrite H in Hcase.
    destruct Hcase as (Hn & Htok & Hhd & Ht). repeat split; try assumption.
    rewrite Hhd, Htok. apply lookup_insert_eq. }
  assert (Hnot : reading E w - token_acquired_time c < token_valid_for c - 60 ->
                 c' = c /\ auth_calls (trace w') = auth_calls (trace w)).
  { intros H. apply refresh_due_false in H. by rewrite H in Hcase. }
  split; [exact Hdue|]. split; [exact Hnot|]. split; [|split].
  - intros keyword.
    destruct (search_patents_spec E keyword (c, w)) as (w2 & -> & _ & _ & _ & Hauth).
    unfold ensured in Hauth. rewrite Hrun in Hauth. exact Hauth.
  - intros Hv He. apply Hdue. lra.
  - intros Hv He. apply Hnot. lra.
Qed.

Lemma get_oauth_token_failed {O} (E : Env) (key secret : string) (o : O) (w : World) :
  granted (requests_post E (trace w) auth_url (key, secret)) = None ->
  exists e,
    get_oauth_token E key secret (o, w)
    = (Ok (JStr ""),
       (o, {| now := now w + latency E (trace w);
              trace := (trace w ++ [EvPost auth_url])
                         ++ [EvLog ERROR "Failed to obtain OAuth token" (Some e)];
              patents := patents w |})).
Proof.
  cbv [get_oauth_token try_except bind http_post elapse get_trace advance emit
       lift logging print ret granted is_Exception].
  cbn [fst snd now trace patents].
  destruct (requests_post E (trace w) auth_url (key, secret)) as [resp|e];
    [|intros _; by exists e].
  destruct (raise_for_status resp) as [[]|e]; [|intros _; by exists e].
  destruct (json_body resp) as [data|e]; [|intros _; by exists e].
  destruct (py_getitem data "access_token") as [tok|e]; [discriminate|].
  intros _. by exists e.
Qed.

Lemma ensure_token_logs_failure (E : Env) (c : EPOClient) (w : World) :
  refresh_due c (reading E w) = true ->
  granted (requests_post E (trace w ++ [EvTime (reading E w)]) auth_url
             (consumer_key c, consumer_secret c)) = None ->
  exists e,
    In (EvLog ERROR "Failed to obtain OAuth token" (Some e))
       (trace (snd (snd (ensure_token E (c, w))))).
Proof.
  intros Hdue Hfail.
  cbv [ensure_token bind time_time elapse get_trace advance emit ret get_self modify_self].
  cbn [fst snd now trace patents]. fold (reading E w). rewrite Hdue.
  destruct (get_oauth_token_failed E (consumer_key c) (consumer_secret c) c
              {| now := reading E w; trace := trace w ++ [EvTime (reading E w)];
                 patents := patents w |} Hfail) as (e & ->).
  exists e. cbn [fst snd now trace patents]. rewrite !in_app_iff. cbn. tauto.
Qed.

(** C4, as the code has it.  When a refresh is due and the authentication
    call fails, [get_oauth_token] logs the error and [ensure_token] does
    not keep the previous token: it stores the empty string
    [get_oauth_token] returned, sets the [Authorization] header to
    ["Bearer "] and moves the acquisition time forward. *)
Theorem failed_refresh_replaces_token (E : Env) (c : EPOClient) (w : World) :
  token_valid_for c - 60 <= reading E w - token_acquired_time c ->
  granted (requests_post E (trace w ++ [EvTime (reading E w)]) auth_url
             (consumer_key c, consumer_secret c)) = None ->
  exists c' w',
    ensure_token E (c, w) = (Ok tt, (c', w'))
    /\ token c' = JStr ""
    /\ headers c' !! "Authorization" = Some "Bearer "
    /\ token_acquired_time c' = now w'
    /\ auth_calls (trace w') = S (auth_calls (trace w))
    /\ exists e, In (EvLog ERROR "Failed to obtain OAuth token" (Some e)) (trace w').
Proof.
  intros Hdue Hfail.
  destruct (ensure_token_spec E c w) as (c' & w' & Hrun & _ & _ & _ & _ & _ & Hcase).
  apply refresh_due_true in Hdue.
  pose proof (ensure_token_logs_failure E c w Hdue Hfail) as Hlog.
  rewrite Hrun in Hlog. cbn [snd] in Hlog.
  rewrite Hdue in Hcase.
  destruct Hcase as (Hn & Htok & Hhd & Ht).
  unfold refreshed in *. rewrite Hfail in *. cbn [from_option] in *.
  exists c', w'. split; [exact Hrun|]. split; [exact Htok|].
  split; [rewrite Hhd; apply lookup_insert_eq|]. split; [exact Ht|].
  split; [exact Hn | exact Hlog].
Qed.
End TokenClaims.

Section HarvestClaims.
Import Harvest.
Context (E : Env).

Lemma raise_for_status_error (resp : Response) (e : exn) :
  raise_for_status resp = Raise e -> e = RequestException (Some (content resp)).
Proof. unfold raise_for_status. destruct (_ && _); congruence. Qed.

(** C5, as the code has it.  When the search request raises, is answered
    with an error status, or its body cannot be decoded, [process_keyword]
    sends no detail request (the search is the only GET), gives nothing to
    [insert_one] and leaves the collection as it was; a
    [requests.RequestException] is logged by [search_patents].  After an
    error status [process_keyword] returns normally, so the future of the
    item holds no exception. *)
Theorem failed_search_stores_nothing (keyword : string) (s : EPOClient * World) (e : exn) :
  decoded (search_reply E keyword s) = Raise e ->
  exists r s',
    process_keyword E keyword s = (r, s')
    /\ gets (trace (snd s'))
       = gets (trace (snd s)) ++ [search_endpoint E (fst (ensured E s)) keyword]
    /\ inserts (trace (snd s')) = inserts (trace (snd s))
    /\ patents (snd s') = patents (snd s)
    /\ (is_RequestException e = true ->
        In (EvLog ERROR (search_error_message keyword) (Some e)) (trace (snd s')))
    /\ (forall resp,
          search_reply E keyword s = Ok resp -> raise_for_status resp = Raise e ->
          r = Ok tt
          /\ run_task (process_keyword E keyword) s = (Ok (Returned tt), s')).
Proof.
  intros Hdec. pose proof (process_keyword_search_failed E keyword s e Hdec) as Hrun.
  pose proof (search_patents_logs E keyword s e Hdec) as Hlog.
  destruct (search_patents_spec E keyword s) as (w' & Hsp & Hpat & Hgets & Hins & _).
  rewrite Hsp in Hrun, Hlog. cbn [fst snd] in Hrun, Hlog.
  do 2 eexists. split; [exact Hrun|]. cbn [fst snd].
  do 4 (split; [assumption|]).
  intros resp Hresp Hst. apply raise_for_status_error in Hst as ->.
  unfold run_task. rewrite Hrun. unfold search_outcome. rewrite Hdec. done.
Qed.

Lemma abstract_of_value (data a : json) :
  abstract_of data = Ok a ->
  exists p, a = from_option id (JStr "No abstract available") (assoc "$" p).
Proof.
  unfold abstract_of.
  repeat match goal with
         | |- context [match py_get ?v ?k ?d with _ => _ end] =>
             destruct (py_get v k d) as [?|?]; [|discriminate]
         end.
  unfold py_get. destruct a4; try discriminate. intros [= <-]. by eexists.
Qed.

Lemma loop_stores_each (docs : list json) (s : EPOClient * World) (new : list json) :
  loop_stores E docs s new ->
  Forall2 (fun doc d => exists s_turn, stored_for E s_turn doc d) (take (length new) docs) new.
Proof.
  induction 1 as [| |doc docs s d s' new Hd _ _ _ IH]; cbn [length take]; constructor;
    [by exists s | exact IH].
Qed.

Lemma identify_blank (fields : list (string * json)) :
  (assoc "document-id" fields = None -> identify E (JObj fields) = Ok ("", JStr ""))
  /\ (forall doc_id,
        assoc "document-id" fields = Some (JObj doc_id) ->
        assoc "country" doc_id = None ->
        assoc "doc-number" doc_id = None ->
        assoc "kind" doc_id = None ->
        exists patent_type, identify E (JObj fields) = Ok ("", patent_type)).
Proof.
  split.
  - intros Hid. unfold identify. cbn [py_get]. by rewrite Hid.
  - intros doc_id Hid Hc Hn Hk. unfold identify, field. cbn [py_get].
    rewrite Hid. cbn [from_option id py_get]. rewrite Hc, Hn, Hk. cbn. by eexists.
Qed.

(** C8, as the code has it.  The documents [process_keyword] adds to the
    collection are those of the matched references of its search result
    (the first hundred at most), in order, one for each turn of the loop
    that ends normally, and none when the search raises.  Each has the two
    keys [patentNumber] and [abstract].  The number is the identifier built
    from its reference, which is empty when the reference has no
    [document-id], or none of [country], [doc-number] and [kind].  The
    abstract is what the reply to the detail request of that turn gives:
    ["Abstract fetch failed"] when the fetch fails, and otherwise what the
    chain of [.get] reads in the fetched body, the value under ["$"] or
    ["No abstract available"]. *)
Theorem stored_records_keep_both_fields (keyword : string) (s : EPOClient * World) :
  exists new,
    patents (snd (snd (process_keyword E keyword s))) = patents (snd s) ++ new
    /\ (length new <= 100)%nat
    /\ (forall results,
          fst (search_patents E keyword s) = Ok results ->
          (length (matched_references results) <= 100)%nat
          /\ loop_stores E (matched_references results) (loop_start E keyword s) new
          /\ Forall2 (fun doc d => exists s_turn, stored_for E s_turn doc d)
               (take (length new) (matched_references results)) new)
    /\ (forall e, fst (search_patents E keyword s) = Raise e -> new = [])
    /\ Forall (fun d =>
                 exists pn a,
                   py_getitem d "patentNumber" = Ok (JStr pn)
                   /\ py_getitem d "abstract" = Ok a
                   /\ (a = JStr "Abstract fetch failed"
                       \/ exists p,
                           a = from_option id (JStr "No abstract available") (assoc "$" p)))
              new
    /\ (forall fields,
          (assoc "document-id" fields = None -> identify E (JObj fields) = Ok ("", JStr ""))
          /\ (forall doc_id,
                assoc "document-id" fields = Some (JObj doc_id) ->
                assoc "country" doc_id = None ->
                assoc "doc-number" doc_id = None ->
                assoc "kind" doc_id = None ->
                exists patent_type, identify E (JObj fields) = Ok ("", patent_type))).
Proof.
  destruct (process_keyword_stores E keyword s) as (new & Hpat & Hloop & Hnone).
  exists new. split; [exact Hpat|].
  assert (Hshape : Forall (fun d => exists pn a, d = record pn a
                               /\ (a = fetch_failed \/ exists data, abstract_of data = Ok a))
                     new).
  { destruct (fst (search_patents E keyword s)) as [results|e].
    - by apply (loop_stores_shape E _ _ _ (Hloop results eq_refl)).
    - rewrite (Hnone e eq_refl). constructor. }
  split; [|split; [|split; [exact Hnone|split; [|exact identify_blank]]]].
  - destruct (fst (search_patents E keyword s)) as [results|e].
    + pose proof (loop_stores_length E _ _ _ (Hloop results eq_refl)).
      pose proof (matched_references_length results). lia.
    + rewrite (Hnone e eq_refl). cbn. lia.
  - intros results Hres. split; [apply matched_references_length|].
    split; [by apply Hloop|].
    apply (loop_stores_each _ (loop_start E keyword s)). by apply Hloop.
  - eapply Forall_impl; [exact Hshape|]. intros d (pn & a & -> & Ha).
    exists pn, a. split; [done|]. split; [done|].
    destruct Ha as [->|[data Ha]]; [by left|]. right. by apply (abstract_of_value data).
Qed.

Lemma for_each_benign (c0 : EPOClient) (docs : list json) (ids : list (string * json)) :
  Forall2 (fun doc id => identify E doc = Ok id) docs ids ->
  (forall tr endpoint h, benign (requests_get E tr endpoint h)) ->
  (forall tr d, insert_one E tr d = None) ->
  forall s, base_url (fst s) = base_url c0 ->
  exists s' recs,
    for_each docs (process_doc E) s = (Ok tt, s')
    /\ patents (snd s') = patents (snd s) ++ recs
    /\ inserts (trace (snd s')) = inserts (trace (snd s)) ++ recs
    /\ gets (trace (snd s'))
       = gets (trace (snd s)) ++ map (fun id => detail_endpoint E c0 (fst id) (snd id)) ids
    /\ Forall2 (fun id rec =>
                  exists a,
                    rec = record (fst id) a
                    /\ ((forall tr h,
                           fetch_fails
                             (requests_get E tr (detail_endpoint E c0 (fst id) (snd id)) h)
                           = true) ->
                        a = fetch_failed)
                    /\ (forall data a',
                          (forall tr h,
                              decoded
                                (requests_get E tr (detail_endpoint E c0 (fst id) (snd id)) h)
                              = Ok data) ->
                          abstract_of data = Ok a' ->
                          a = a'))
               ids recs.
Proof.
  intros Hids Hben Hstore. induction Hids as [|doc id docs ids Hid _ IH]; intros s Hbase.
  - exists s, []. cbn. rewrite !app_nil_r. repeat split. constructor.
  - rewrite for_each_cons. pose proof (process_doc_cases E doc s) as H.
    rewrite Hid in H. destruct H as (w1 & _ & _ & _ & H).
    destruct (detail_outcome_benign (fst id) (detail_reply E (fst id) (snd id) s))
      as (a & Hout & _); [apply Hben|].
    rewrite Hout in H. destruct H as (w' & Hins & Hgets & H).
    rewrite Hstore in H. destruct H as [-> Hpat].
    assert (Hb1 : base_url (fst (ensured E s)) = base_url c0)
      by (by rewrite ensured_base_url).
    destruct (IH (fst (ensured E s), w') Hb1) as (s' & recs & Hrun & Hp & Hi & Hg & Hall).
    cbn [fst snd] in *.
    exists s', (record (fst id) a :: recs).
    rewrite Hrun, Hp, Hi, Hg, Hpat, Hins, Hgets, <- !app_assoc.
    rewrite (detail_endpoint_base E _ c0 _ _ Hb1).
    repeat split. constructor; [|exact Hall].
    exists a. split; [done|]. split.
    + intros Hfail.
      assert (Hf : fetch_fails (detail_reply E (fst id) (snd id) s) = true).
      { unfold detail_reply. cbn zeta. rewrite (detail_endpoint_base E _ c0 _ _ Hb1).
        apply Hfail. }
      rewrite (detail_outcome_fails _ _ Hf) in Hout. by injection Hout as <-.
    + intros data a' Hdec Ha'.
      assert (Hd : decoded (detail_reply E (fst id) (snd id) s) = Ok data).
      { unfold detail_reply. cbn zeta. rewrite (detail_endpoint_base E _ c0 _ _ Hb1).
        apply Hdec. }
      unfold detail_outcome, detail_attempt in Hout. rewrite Hd, Ha' in Hout.
      by injection Hout as <-.
Qed.

(** A turn of the loop whose detail fetch returns a body of the expected
    shape stores the abstract read from that body and goes on. *)
Lemma good_fetch_continues (doc : json) (rest : list json) (s : EPOClient * World)
    (pn : string) (pt data a : json) :
  identify E doc = Ok (pn, pt) ->
  decoded (detail_reply E pn pt s) = Ok data ->
  abstract_of data = Ok a ->
  (forall tr, insert_one E tr (record pn a) = None) ->
  exists w',
    fst (get_abstract E pn pt s) = Ok (record pn a)
    /\ for_each (doc :: rest) (process_doc E) s
       = for_each rest (process_doc E) (fst (ensured E s), w')
    /\ patents w' = patents (snd s) ++ [record pn a]
    /\ inserts (trace w') = inserts (trace (snd s)) ++ [record pn a]
    /\ gets (trace w')
       = gets (trace (snd s)) ++ [detail_endpoint E (fst (ensured E s)) pn pt].
Proof.
  intros Hid Hdec Ha Hstore.
  assert (Hout : detail_outcome pn (detail_reply E pn pt s) = Ok (record pn a)).
  { unfold detail_outcome, detail_attempt. by rewrite Hdec, Ha. }
  pose proof (process_doc_cases E doc s) as H. rewrite Hid in H. cbn [fst snd] in H.
  destruct H as (w1 & _ & _ & _ & H). rewrite Hout in H.
  destruct H as (w' & Hins & Hgets & H). rewrite Hstore in H. destruct H as [Hrun Hpat].
  exists w'. rewrite for_each_cons, Hrun.
  destruct (get_abstract_spec E pn pt s) as (w2 & -> & _). cbn [fst]. done.
Qed.

(** A turn of the loop that raises ends the loop. *)
Lemma turn_raises (doc : json) (rest : list json) (s : EPOClient * World)
    (pn : string) (pt : json) :
  identify E doc = Ok (pn, pt) ->
  (forall e,
      detail_outcome pn (detail_reply E pn pt s) = Raise e ->
      exists w',
        for_each (doc :: rest) (process_doc E) s = (Raise e, (fst (ensured E s), w'))
        /\ gets (trace w')
           = gets (trace (snd s)) ++ [detail_endpoint E (fst (ensured E s)) pn pt]
        /\ inserts (trace w') = inserts (trace (snd s))
        /\ patents w' = patents (snd s))
  /\ (forall d e,
        detail_outcome pn (detail_reply E pn pt s) = Ok d ->
        (forall tr, insert_one E tr d = Some e) ->
        exists w',
          for_each (doc :: rest) (process_doc E) s = (Raise e, (fst (ensured E s), w'))
          /\ gets (trace w')
             = gets (trace (snd s)) ++ [detail_endpoint E (fst (ensured E s)) pn pt]
          /\ inserts (trace w') = inserts (trace (snd s)) ++ [d]
          /\ patents w' = patents (snd s)).
Proof.
  intros Hid. pose proof (process_doc_cases E doc s) as H. rewrite Hid in H.
  cbn [fst snd] in H. destruct H as (w1 & Hp & Hi & Hg & H). split.
  - intros e Hout. rewrite Hout in H. exists w1. by rewrite for_each_cons, H.
  - intros d e Hout Hstore. rewrite Hout in H. destruct H as (w' & Hi' & Hg' & H).
    rewrite Hstore in H. destruct H as [Hrun Hp']. exists w'.
    by rewrite for_each_cons, Hrun.
Qed.

(** C6, as the code has it.  In the loop of [process_keyword] over the
    matched references, a detail fetch that fails with a
    [requests.RequestException] is isolated: [get_abstract] returns the
    record with the abstract ["Abstract fetch failed"], the record is
    inserted on its own (the collection accepting it), and the loop goes on
    with the remaining references; a fetch that returns a body of the
    expected shape stores the abstract read from that body.  So, when every
    detail fetch either fails in this way or returns such a body, and the
    collection accepts the writes, the loop runs to its end: one detail
    request is sent and one document is inserted for every reference, in
    order, with the abstract its own reply gives.  No other failure is
    isolated.  When the fetch raises another exception, when the body has
    not the expected shape, or when [insert_one] raises, the exception ends
    the loop: nothing is stored for that reference, the remaining
    references are neither requested nor stored, and [process_keyword]
    logs the exception and returns. *)
Theorem detail_failures_are_isolated :
  (forall doc rest (s : EPOClient * World) pn pt,
      identify E doc = Ok (pn, pt) ->
      fetch_fails (detail_reply E pn pt s) = true ->
      (forall tr,
          insert_one E tr (JObj [("patentNumber", JStr pn);
                                 ("abstract", JStr "Abstract fetch failed")]) = None) ->
      exists w',
        fst (get_abstract E pn pt s)
        = Ok (JObj [("patentNumber", JStr pn); ("abstract", JStr "Abstract fetch failed")])
        /\ for_each (doc :: rest) (process_doc E) s
           = for_each rest (process_doc E) (fst (ensured E s), w')
        /\ patents w'
           = patents (snd s)
               ++ [JObj [("patentNumber", JStr pn); ("abstract", JStr "Abstract fetch failed")]]
        /\ inserts (trace w')
           = inserts (trace (snd s))
               ++ [JObj [("patentNumber", JStr pn); ("abstract", JStr "Abstract fetch failed")]])
  /\ (forall doc rest (s : EPOClient * World) pn pt data a,
        identify E doc = Ok (pn, pt) ->
        decoded (detail_reply E pn pt s) = Ok data ->
        abstract_of data = Ok a ->
        (forall tr, insert_one E tr (JObj [("patentNumber", JStr pn); ("abstract", a)]) = None) ->
        exists w',
          fst (get_abstract E pn pt s) = Ok (JObj [("patentNumber", JStr pn); ("abstract", a)])
          /\ for_each (doc :: rest) (process_doc E) s
             = for_each rest (process_doc E) (fst (ensured E s), w')
          /\ patents w'
             = patents (snd s) ++ [JObj [("patentNumber", JStr pn); ("abstract", a)]]
          /\ inserts (trace w')
             = inserts (trace (snd s)) ++ [JObj [("patentNumber", JStr pn); ("abstract", a)]]
          /\ gets (trace w')
             = gets (trace (snd s)) ++ [detail_endpoint E (fst (ensured E s)) pn pt])
  /\ (forall docs ids (s : EPOClient * World),
        Forall2 (fun doc id => identify E doc = Ok id) docs ids ->
        (forall tr endpoint h, benign (requests_get E tr endpoint h)) ->
        (forall tr d, insert_one E tr d = None) ->
        exists s' recs,
          for_each docs (process_doc E) s = (Ok tt, s')
          /\ patents (snd s') = patents (snd s) ++ recs
          /\ inserts (trace (snd s')) = inserts (trace (snd s)) ++ recs
          /\ gets (trace (snd s'))
             = gets (trace (snd s))
                 ++ map (fun id => detail_endpoint E (fst s) (fst id) (snd id)) ids
          /\ Forall2 (fun id rec =>
                        exists a,
                          rec = JObj [("patentNumber", JStr (fst id)); ("abstract", a)]
                          /\ ((forall tr h,
                                 fetch_fails
                                   (requests_get E tr
                                      (detail_endpoint E (fst s) (fst id) (snd id)) h)
                                 = true) ->
                              a = JStr "Abstract fetch failed")
                          /\ (forall data a',
                                (forall tr h,
                                    decoded
                                      (requests_get E tr
                                         (detail_endpoint E (fst s) (fst id) (snd id)) h)
                                    = Ok data) ->
                                abstract_of data = Ok a' ->
                                a = a'))
                     ids recs)
  /\ (forall doc rest (s : EPOClient * World) pn pt e,
        identify E doc = Ok (pn, pt) ->
        (decoded (detail_reply E pn pt s) = Raise e /\ is_RequestException e = false)
        \/ (exists data,
               decoded (detail_reply E pn pt s) = Ok data /\ abstract_of data = Raise e) ->
        exists w',
          fst (get_abstract E pn pt s) = Raise e
          /\ for_each (doc :: rest) (process_doc E) s = (Raise e, (fst (ensured E s), w'))
          /\ gets (trace w')
             = gets (trace (snd s)) ++ [detail_endpoint E (fst (ensured E s)) pn pt]
          /\ inserts (trace w') = inserts (trace (snd s))
          /\ patents w' = patents (snd s))
  /\ (forall doc rest (s : EPOClient * World) pn pt d e,
        identify E doc = Ok (pn, pt) ->
        fst (get_abstract E pn pt s) = Ok d ->
        (forall tr, insert_one E tr d = Some e) ->
        exists w',
          for_each (doc :: rest) (process_doc E) s = (Raise e, (fst (ensured E s), w'))
          /\ gets (trace w')
             = gets (trace (snd s)) ++ [detail_endpoint E (fst (ensured E s)) pn pt]
          /\ inserts (trace w') = inserts (trace (snd s)) ++ [d]
          /\ patents w' = patents (snd s))
  /\ (forall keyword (s : EPOClient * World) results e s3,
        fst (search_patents E keyword s) = Ok results ->
        for_each (matched_references results) (process_doc E) (loop_start E keyword s)
        = (Raise e, s3) ->
        exists w',
          process_keyword E keyword s = (Ok tt, (fst s3, w'))
          /\ trace w'
             = trace (snd s3)
                 ++ [EvLog ERROR ("Error processing results for keyword '" +:+ keyword +:+ "'")
                       (Some e)]
          /\ patents w' = patents (snd s3)).
Proof.
  split; [|split; [|split; [|split; [|split]]]].
  - intros doc rest s pn pt Hid Hfail Hstore.
    destruct (failed_fetch_continues E doc rest s pn pt Hid Hfail Hstore)
      as (w' & Hrun & Hpat & Hins).
    exists w'. split; [|done].
    destruct (get_abstract_spec E pn pt s) as (w1 & -> & _).
    cbn [fst]. by apply detail_outcome_fails.
  - intros doc rest s pn pt data a Hid Hdec Ha Hstore.
    exact (good_fetch_continues doc rest s pn pt data a Hid Hdec Ha Hstore).
  - intros docs ids s Hids Hben Hstore.
    exact (for_each_benign (fst s) docs ids Hids Hben Hstore s eq_refl).
  - intros doc rest s pn pt e Hid Hcase.
    assert (Hout : detail_outcome pn (detail_reply E pn pt s) = Raise e).
    { unfold detail_outcome, detail_attempt.
      destruct Hcase as [[-> ->] | (data & -> & Ha)]; [done|].
      by rewrite Ha, (abstract_of_error data e Ha). }
    destruct (turn_raises doc rest s pn pt Hid) as [Hraise _].
    destruct (Hraise e Hout) as (w' & Hrun & Hrest). exists w'. split; [|done].
    destruct (get_abstract_spec E pn pt s) as (w1 & -> & _). exact Hout.
  - intros doc rest s pn pt d e Hid Hd Hstore.
    destruct (turn_raises doc rest s pn pt Hid) as [_ Hrefused].
    apply (Hrefused d e); [|exact Hstore].
    destruct (get_abstract_spec E pn pt s) as (w1 & Hrun & _). by rewrite Hrun in Hd.
  - intros keyword s results e s3 Hsearch Hloop.
    assert (Hne : matched_references results <> []).
    { intros Hnil. rewrite Hnil in Hloop. discriminate Hloop. }
    rewrite (process_keyword_loop E keyword s results Hsearch Hne), Hloop.
    eexists. split; [reflexivity|]. done.
Qed.


End HarvestClaims.

Section PoolFacts.
Context {O I A : Type} (task : I -> M O A).

Lemma run_task_future (x : I) (s : O * World) :
  run_task (task x) s = (Ok (future_of (fst (task x s))), snd (task x s)).
Proof. unfold run_task. by destruct (task x s) as [[a|e] s']. Qed.

(** The pool never raises, and gives one future for each item: the outcome
    of the task on that item, whatever happened to the items before it. *)
Lemma submit_all_spec (items : list I) (s : O * World) :
  exists futures s',
    submit_all task items s = (Ok futures, s')
    /\ Forall2 (fun x f => exists sx, f = future_of (fst (task x sx))) items futures.
Proof.
  revert s. induction items as [|x items IH]; intros s.
  - exists [], s. split; [reflexivity | constructor].
  - cbn [submit_all]. unfold bind at 1. rewrite run_task_future.
    destruct (IH (snd (task x s))) as (fs & s' & Hrun & Hall).
    unfold bind at 1. rewrite Hrun. exists (future_of (fst (task x s)) :: fs), s'.
    split; [reflexivity|]. constructor; [by eexists | exact Hall].
Qed.
End PoolFacts.


Lemma thread_errors_app (tr1 tr2 : list event) :
  thread_errors (tr1 ++ tr2) = thread_errors tr1 ++ thread_errors tr2.
Proof. apply omap_app. Qed.

Lemma thread_errors_cons (e : exn) (tail : list event) :
  thread_errors (EvLog ERROR "Error in thread" (Some e) :: tail) = e :: thread_errors tail.
Proof. reflexivity. Qed.

Lemma exceptions_cons {A} (e : exn) (fs : list (future A)) :
  exceptions (Excepted e :: fs) = e :: exceptions fs.
Proof. reflexivity. Qed.

Lemma report_exceptions_spec {O A} (futures : list (future A)) (o : O) (w : World) :
  exists w' tail,
    Harvest.report_exceptions futures (o, w) = (Ok tt, (o, w'))
    /\ trace w' = trace w ++ tail
    /\ thread_errors tail = exceptions futures.
Proof.
  unfold Harvest.report_exceptions. revert w.
  induction futures as [|f fs IH]; intros w.
  - exists w, []. cbn. by rewrite app_nil_r.
  - rewrite for_each_cons. destruct f as [a|e]; cbn [exception].
    + destruct (IH w) as (w' & tail & Hrun & Htr & Herr).
      exists w', tail. by cbn.
    + change (logging ERROR "Error in thread" (Some e) (o, w))
        with (@Ok unit tt, (o, {| now := now w;
                                  trace := trace w ++ [EvLog ERROR "Error in thread" (Some e)];
                                  patents := patents w |})).
      destruct (IH {| now := now w; trace := trace w ++ [EvLog ERROR "Error in thread" (Some e)];
                      patents := patents w |}) as (w' & tail & Hrun & Htr & Herr).
      exists w', (EvLog ERROR "Error in thread" (Some e) :: tail).
      rewrite Hrun. cbn [trace] in Htr. rewrite Htr, <- app_assoc.
      split; [done|]. split; [done|].
      by rewrite thread_errors_cons, exceptions_cons, Herr.
Qed.




Section EmbedFacts.
Import EmbedStore.
Context (E : Env).

Lemma vector_inserts_app (tr1 tr2 : list event) :
  vector_inserts (tr1 ++ tr2) = vector_inserts tr1 ++ vector_inserts tr2.
Proof. apply omap_app. Qed.

(** [embed_abstract] on a record that has a [patentNumber]: it never raises,
    returns the embedding when there is one and [None] otherwise, and
    writes nothing to the vector index. *)
Lemma embed_abstract_spec (abstract pn : json) (w : World) :
  py_getitem abstract "patentNumber" = Ok pn ->
  exists w',
    vector_inserts (trace w') = vector_inserts (trace w)
    /\ embed_abstract E abstract (tt, w)
       = (match py_getitem abstract "abstract" with
          | Raise _ => Ok None
          | Ok input =>
              match embedding_reply E pn input w with
              | Raise _ => Ok None
              | Ok v => Ok (Some {| patentNumber := pn; embedding := v |})
              end
          end, (tt, w')).
Proof.
  intros Hpn. unfold embedding_reply.
  cbv [embed_abstract try_except bind lift logging emit ret is_Exception
       openai_embeddings_create elapse get_trace advance].
  rewrite Hpn. cbn [fst snd now trace patents].
  destruct (py_getitem abstract "abstract") as [input|e]; cbn [fst snd now trace patents].
  - destruct (embeddings_create E _ input) as [data|e]; cbn [fst snd now trace patents].
    + destruct (first_embedding data) as [v|e]; cbn [fst snd now trace patents];
        (eexists; split; [|reflexivity]); cbn [trace];
        rewrite !vector_inserts_app; cbn; by rewrite ?app_nil_r.
    + eexists; split; [|reflexivity]; cbn [trace];
        rewrite !vector_inserts_app; cbn; by rewrite ?app_nil_r.
  - eexists; split; [|reflexivity]; cbn [trace];
      rewrite !vector_inserts_app; cbn; by rewrite ?app_nil_r.
Qed.

(** Without a [patentNumber] the handler of [embed_abstract] raises in its
    turn, before anything is sent. *)
Lemma embed_abstract_no_number (abstract : json) (e : exn) (w : World) :
  py_getitem abstract "patentNumber" = Raise e ->
  embed_abstract E abstract (tt, w) = (Raise e, (tt, w)).
Proof.
  intros Hpn.
  cbv [embed_abstract try_except bind lift logging emit ret is_Exception].
  by rewrite Hpn.
Qed.

Lemma store_embedding_spec (e : embedded) (w : World) :
  exists stored w',
    store_embedding_in_cloudflare E e (tt, w) = (Ok stored, (tt, w'))
    /\ vector_inserts (trace w') = vector_inserts (trace w) ++ [patentNumber e].
Proof.
  cbv [store_embedding_in_cloudflare try_except bind lift logging emit ret is_Exception
       cf_vectorize_insert elapse get_trace advance].
  cbn [fst snd now trace patents].
  destruct (vectorize_insert E _ _ _) as [response|x]; cbn [fst snd now trace patents].
  - destruct (py_get response "success" (JBool false)) as [success|x];
      cbn [fst snd now trace patents].
    + destruct (truthy success); cbn [fst snd now trace patents];
        (do 2 eexists; split; [reflexivity|]); cbn [trace];
        rewrite !vector_inserts_app; cbn; by rewrite ?app_nil_r.
    + do 2 eexists; split; [reflexivity|]; cbn [trace];
        rewrite !vector_inserts_app; cbn; by rewrite ?app_nil_r.
  - do 2 eexists; split; [reflexivity|]; cbn [trace];
      rewrite !vector_inserts_app; cbn; by rewrite ?app_nil_r.
Qed.

(** C10. For a record with the fields [patentNumber] and [abstract], when
    the embedding call raises, or returns no embedding, [embed_abstract]
    returns [None] and [process_abstract] returns without writing to the
    vector index.  For every record, [process_abstract] writes to the
    vector index only when [embed_abstract] returned an embedding, and then
    once, under the number of that record. *)
Theorem failed_embedding_is_not_stored (abstract : json) (w : World) :
  (forall pn input e,
      py_getitem abstract "patentNumber" = Ok pn ->
      py_getitem abstract "abstract" = Ok input ->
      embedding_reply E pn input w = Raise e ->
      exists w',
        embed_abstract E abstract (tt, w) = (Ok None, (tt, w'))
        /\ process_abstract E abstract (tt, w) = (Ok tt, (tt, w'))
        /\ vector_inserts (trace w') = vector_inserts (trace w))
  /\ (exists r w',
        process_abstract E abstract (tt, w) = (r, (tt, w'))
        /\ match fst (embed_abstract E abstract (tt, w)) with
           | Ok (Some e) =>
               vector_inserts (trace w') = vector_inserts (trace w) ++ [patentNumber e]
           | _ => vector_inserts (trace w') = vector_inserts (trace w)
           end).
Proof.
  split.
  - intros pn input e Hpn Hin Hfail.
    destruct (embed_abstract_spec abstract pn w Hpn) as (w' & Hvec & Hrun).
    rewrite Hin, Hfail in Hrun. exists w'.
    cbv [process_abstract bind]. rewrite Hrun. done.
  - destruct (py_getitem abstract "patentNumber") as [pn|e] eqn:Hpn.
    + destruct (embed_abstract_spec abstract pn w Hpn) as (w1 & Hvec & Hrun).
      cbv [process_abstract bind]. rewrite Hrun. cbn [fst].
      destruct (match py_getitem abstract "abstract" with
                | Ok input => _ | Raise _ => _ end) as [[em|]|x].
      * destruct (store_embedding_spec em w1) as (stored & w2 & -> & Hv2).
        exists (Ok tt), w2. split; [reflexivity|]. by rewrite Hv2, Hvec.
      * exists (Ok tt), w1. done.
      * exists (Raise x), w1. done.
    + cbv [process_abstract bind]. rewrite (embed_abstract_no_number abstract e w Hpn).
      exists (Raise e), w. done.
Qed.
End EmbedFacts.

Section WorkersFacts.
Import Harvest Workers.
Context (E : Env).







(** A worker alone goes through the assignments of [ensure_token]: the
    token, the header, then the acquisition time, set to the clock at that
    step. *)
Lemma single_worker_refreshes (c : EPOClient) (t d : Q) (answer : json) :
  refresh_due c t = true ->
  run E [Step 0 JNull; Step 0 answer; Step 0 JNull; Step 0 JNull; Tick d; Step 0 JNull]
      (start c t 1)
  = {| shared := set_token_acquired_time (t + d)
                   (set_header "Authorization" (bearer E answer) (set_token answer c));
       clock := t + d;
       threads := [Finished] |}.
Proof.
  intros Hdue. unfold run, start. cbn [fold_left replicate].
  unfold step at 6. cbn [threads lookup list_lookup move shared clock fst snd].
  rewrite Hdue. reflexivity.
Qed.

End WorkersFacts.

(** * The properties on the scenarios *)

Section Runs.
Import Harvest Scenario Cases.
Local Open Scope Q_scope.

Example init_without_rate : RateLimiter.init (RateLimiter.Finite 0) = Raise ZeroDivisionError.
Proof. reflexivity. Qed.

Example init_unbounded_rate :
  RateLimiter.init RateLimiter.Infinite
  = Ok {| RateLimiter.delay := 0; RateLimiter.last_call := ∅ |}.
Proof. reflexivity. Qed.

Example paced_wait_sleeps :
  sleeps (trace (snd (snd (RateLimiter.wait env_grant 7 (Limiters.paced, world_at 10)))))
  = [1 / 2 - (10 - (1 # 10) + (1 # 10) - 10)].
Proof. reflexivity. Qed.

(** The pacing of [wait] on a limiter without delay and on one with two
    calls a second. *)
Lemma wait_paces_each_caller_witness :
  (exists self' w',
      RateLimiter.wait env_grant 7 (Limiters.idle, world_at 10) = (Ok tt, (self', w'))
      /\ 3 + 0 <= now w'
      /\ sleeps (trace w') = [])
  /\ (exists self' w',
        RateLimiter.wait env_grant 7 (Limiters.paced, world_at 10) = (Ok tt, (self', w'))
        /\ 10 + 1 / 2 <= now w').
Proof.
  assert (Hlat : forall tr, 0 <= latency env_grant tr) by (intros tr; cbn; lra).
  split.
  - destruct (wait_paces_each_caller env_grant Limiters.idle (world_at 10) 7 Hlat)
      as (self' & w' & Hrun & _ & _ & Hpace & _ & Hzero).
    exists self', w'. split; [exact Hrun|]. split.
    + apply (Hpace 3). reflexivity.
    + apply Hzero; [reflexivity|]. intros last Hlast. vm_compute in Hlast.
      injection Hlast as <-. vm_compute. discriminate.
  - destruct (wait_paces_each_caller env_grant Limiters.paced (world_at 10) 7 Hlat)
      as (self' & w' & Hrun & _ & _ & Hpace & _).
    exists self', w'. split; [exact Hrun|]. apply (Hpace 10). reflexivity.
Defined.

(** The refresh rule 1145 and 1000 seconds after the acquisition. *)
Lemma ensure_token_refresh_rule_witness :
  (exists c' w',
      ensure_token env_grant (client, world_at 1145) = (Ok tt, (c', w'))
      /\ auth_calls (trace w') = 1%nat
      /\ token c' = JStr "new"
      /\ headers c' !! "Authorization" = Some "Bearer new")
  /\ (exists c' w',
        ensure_token env_grant (client, world_at 1000) = (Ok tt, (c', w'))
        /\ c' = client
        /\ auth_calls (trace w') = 0%nat).
Proof.
  split.
  - destruct (ensure_token_refresh_rule env_grant client (world_at 1145))
      as (c' & w' & Hrun & Hgen & _).
    exists c', w'. split; [exact Hrun|].
    destruct Hgen as (Hn & Htok & Hhd & _); [vm_compute; discriminate|].
    split; [exact Hn|]. split; [exact Htok|]. rewrite Hhd, Htok. reflexivity.
  - destruct (ensure_token_refresh_rule env_grant client (world_at 1000))
      as (c' & w' & Hrun & _ & _ & _ & _ & Hnot).
    exists c', w'. split; [exact Hrun|]. apply Hnot; reflexivity.
Defined.



(** After a refused refresh the client holds the empty token and the header
    ["Bearer "], not the token ["old"]. *)
Lemma auth_failure_discards_token :
  granted (requests_post env_denied [EvTime (reading env_denied (world_at 1145))] auth_url
             ("key", "secret")) = None
  /\ refresh_due client (reading env_denied (world_at 1145)) = true
  /\ token client = JStr "old"
  /\ headers client !! "Authorization" = Some "Bearer old"
  /\ token (fst (snd (ensure_token env_denied (client, world_at 1145)))) = JStr ""
  /\ headers (fst (snd (ensure_token env_denied (client, world_at 1145)))) !! "Authorization"
     = Some "Bearer ".
Proof. vm_compute. repeat split. Qed.

(** The refused refresh, through the general statement. *)
Lemma failed_refresh_replaces_token_witness :
  exists c' w',
    ensure_token env_denied (client, world_at 1145) = (Ok tt, (c', w'))
    /\ token c' = JStr ""
    /\ headers c' !! "Authorization" = Some "Bearer "
    /\ token_acquired_time c' = now w'
    /\ auth_calls (trace w') = S (auth_calls (trace (world_at 1145)))
    /\ exists e, In (EvLog ERROR "Failed to obtain OAuth token" (Some e)) (trace w').
Proof.
  apply (failed_refresh_replaces_token env_denied client (world_at 1145)).
  - vm_compute. discriminate.
  - reflexivity.
Defined.

(** A search answered with status 500: the future of the keyword holds no
    exception, and [main] logs no error for its thread. *)
Lemma http_500_leaves_no_exception :
  decoded (search_reply env_500 "battery" (client, world_at 0))
  = Raise (RequestException (Some "error page"))
  /\ fst (run_task (process_keyword env_500 "battery") (client, world_at 0))
     = Ok (Returned tt)
  /\ fst (main env_500 "key" "secret" ["battery"] (tt, world_at 0)) = Ok [Returned tt]
  /\ failed (batch_report ["battery"] [Returned tt]) = 0%nat
  /\ thread_errors (trace (snd (snd (main env_500 "key" "secret" ["battery"] (tt, world_at 0)))))
     = [].
Proof. vm_compute. repeat split. Qed.

(** A search answered with status 500 stores nothing. *)
Lemma failed_search_stores_nothing_witness :
  exists r s',
    process_keyword env_500 "battery" (client, world_at 0) = (r, s')
    /\ gets (trace (snd s')) = [search_url]
    /\ inserts (trace (snd s')) = []
    /\ patents (snd s') = []
    /\ r = Ok tt.
Proof.
  destruct (failed_search_stores_nothing env_500 "battery" (client, world_at 0)
              (RequestException (Some "error page")) eq_refl)
    as (r & s' & Hrun & Hgets & Hins & Hpat & _ & Hst).
  exists r, s'. split; [exact Hrun|]. split; [exact Hgets|]. split; [exact Hins|].
  split; [exact Hpat|].
  apply (Hst {| status_code := 500; content := "error page";
                json_body := Raise (RequestException None) |}); reflexivity.
Defined.

Example harvest_two_references :
  patents (snd (snd (for_each two_references (process_doc env_one_missing)
                       (client, world_at 0))))
  = [JObj [("patentNumber", JStr "EP1000A1"); ("abstract", JStr "Abstract fetch failed")];
     JObj [("patentNumber", JStr "US2000B2"); ("abstract", JStr "A battery.")]].
Proof. vm_compute. reflexivity. Qed.

(** A detail request answered with abstracts in two languages: the chain
    of [.get] raises, [get_abstract] does not catch it, no record is stored
    for the reference, and the second reference is never requested. *)
Lemma unexpected_body_ends_the_batch :
  matched_references (search_body two_references) = two_references
  /\ identify env_two_languages (reference "EP" "1000" "A1") = Ok ("EP1000A1", JStr "docdb")
  /\ abstract_of two_abstracts_body = Raise AttributeError
  /\ fst (get_abstract env_two_languages "EP1000A1" (JStr "docdb")
            (loop_start env_two_languages "battery" (client, world_at 0)))
     = Raise AttributeError
  /\ fst (process_keyword env_two_languages "battery" (client, world_at 0)) = Ok tt
  /\ gets (trace (snd (snd (process_keyword env_two_languages "battery" (client, world_at 0)))))
     = [search_url; first_url]
  /\ inserts (trace (snd (snd (process_keyword env_two_languages "battery"
                                 (client, world_at 0))))) = []
  /\ patents (snd (snd (process_keyword env_two_languages "battery" (client, world_at 0)))) = []
  /\ ~ In second_url
         (gets (trace (snd (snd (process_keyword env_two_languages "battery"
                                   (client, world_at 0))))))
  /\ ~ In (JObj [("patentNumber", JStr "EP1000A1"); ("abstract", JStr "Abstract fetch failed")])
         (patents (snd (snd (process_keyword env_two_languages "battery"
                               (client, world_at 0))))).
Proof.
  vm_compute. repeat split.
  - intros [H|[H|[]]]; discriminate H.
  - intros [].
Qed.

(** Two references, the detail request of the first answered 404 and that
    of the second with an abstract. *)
Lemma detail_failures_are_isolated_witness :
  exists s',
    for_each two_references (process_doc env_one_missing) (client, world_at 0) = (Ok tt, s')
    /\ patents (snd s')
       = [JObj [("patentNumber", JStr "EP1000A1"); ("abstract", JStr "Abstract fetch failed")];
          JObj [("patentNumber", JStr "US2000B2"); ("abstract", JStr "A battery.")]].
Proof.
  destruct (detail_failures_are_isolated env_one_missing) as (_ & _ & Hloop & _).
  destruct (Hloop two_references
              [("EP1000A1", JStr "docdb"); ("US2000B2", JStr "docdb")]
              (client, world_at 0))
    as (s' & recs & Hrun & Hpat & _ & _ & Hall).
  - repeat (constructor; [vm_compute; reflexivity|]). constructor.
  - intros tr endpoint h.
    change (requests_get env_one_missing tr endpoint h)
      with (if String.eqb endpoint first_url then error_page 404
            else reply 200 (abstract_body "A battery.")).
    destruct (String.eqb endpoint first_url).
    + left. reflexivity.
    + right. do 2 eexists. split; reflexivity.
  - intros tr d. reflexivity.
  - exists s'. split; [exact Hrun|]. rewrite Hpat.
    inversion Hall as [|id1 rec1 ids1 recs1 Hfirst Hrest]. subst.
    inversion Hrest as [|id2 rec2 ids2 recs2 Hsecond Hnone]. subst.
    inversion Hnone. subst.
    destruct Hfirst as (a1 & -> & Hfail & _).
    destruct Hsecond as (a2 & -> & _ & Hgood).
    rewrite Hfail; [|intros tr h; vm_compute; reflexivity].
    rewrite (Hgood (abstract_body "A battery.") (JStr "A battery."));
      [reflexivity | intros tr h; vm_compute; reflexivity | reflexivity].
Defined.

(** The same run ends with the log line of the handler of
    [process_keyword]. *)
Example unexpected_body_is_logged :
  last (trace (snd (snd (process_keyword env_two_languages "battery" (client, world_at 0)))))
  = Some (EvLog ERROR "Error processing results for keyword 'battery'" (Some AttributeError)).
Proof. vm_compute. reflexivity. Qed.


(** A reference without [document-id] is stored under the empty number. *)
Lemma blank_reference_is_stored :
  fst (process_keyword env_blank "battery" (client, world_at 0)) = Ok tt
  /\ patents (snd (snd (process_keyword env_blank "battery" (client, world_at 0))))
     = [JObj [("patentNumber", JStr ""); ("abstract", JStr "Abstract fetch failed")]]
  /\ py_getitem (JObj [("patentNumber", JStr ""); ("abstract", JStr "Abstract fetch failed")])
       "patentNumber" = Ok (JStr "").
Proof. vm_compute. repeat split. Qed.

(** The stored documents of the search that finds a blank reference. *)
Lemma stored_records_keep_both_fields_witness :
  exists new,
    patents (snd (snd (process_keyword env_blank "battery" (client, world_at 0))))
    = patents (snd (client, world_at 0)) ++ new
    /\ loop_stores env_blank (matched_references (search_body [JObj []]))
         (loop_start env_blank "battery" (client, world_at 0)) new
    /\ Forall2 (fun doc d => exists s_turn, stored_for env_blank s_turn doc d)
         (take (length new) (matched_references (search_body [JObj []]))) new.
Proof.
  destruct (stored_records_keep_both_fields env_blank "battery" (client, world_at 0))
    as (new & Hpat & _ & Hloop & _).
  destruct (Hloop (search_body [JObj []])) as (_ & Hrun & Hall); [vm_compute; reflexivity|].
  exists new. split; [exact Hpat|]. split; [exact Hrun | exact Hall].
Defined.


Example embed_main_outcomes :
  fst (EmbedStore.main env_grant [record "EP1000A1" (JStr "A battery."); JObj []]
         (tt, world_at 0))
  = Ok [Returned tt; Excepted KeyError].
Proof. vm_compute. reflexivity. Qed.

(** A record whose embedding request fails. *)
Lemma failed_embedding_is_not_stored_witness :
  exists w',
    EmbedStore.embed_abstract env_grant (record "EP1000A1" (JStr "A battery.")) (tt, world_at 0)
    = (Ok None, (tt, w'))
    /\ EmbedStore.process_abstract env_grant (record "EP1000A1" (JStr "A battery."))
         (tt, world_at 0)
       = (Ok tt, (tt, w'))
    /\ vector_inserts (trace w') = vector_inserts (trace (world_at 0)).
Proof.
  destruct (failed_embedding_is_not_stored env_grant
              (record "EP1000A1" (JStr "A battery.")) (world_at 0)) as [H _].
  apply (H (JStr "EP1000A1") (JStr "A battery.") (OtherException "APIConnectionError"));
    reflexivity.
Defined.
End Runs.

(** * Further properties *)

Section LimiterFacts.
Context (E : Env).

(** One call of [wait], in full. *)
Lemma wait_effect (self : RateLimiter.t) (w : World) (tid : nat) :
  exists self' w',
    RateLimiter.wait E tid (self, w) = (Ok tt, (self', w'))
    /\ self' = {| RateLimiter.delay := RateLimiter.delay self;
                  RateLimiter.last_call := <[tid := now w']> (RateLimiter.last_call self) |}
    /\ sleeps (trace w')
       = sleeps (trace w) ++ from_option (fun d => [d]) [] (requested_sleep E self w tid)
    /\ ((forall tr, 0 <= latency E tr) ->
        now w <= now w'
        /\ forall last, RateLimiter.last_call self !! tid = Some last ->
                        last + RateLimiter.delay self <= now w').
Proof.
  unfold requested_sleep, reading.
  cbv [RateLimiter.wait bind get_self time_time time_sleep elapse get_trace
       advance emit ret set_self].
  cbn [fst snd now trace patents].
  destruct (RateLimiter.last_call self !! tid) as [last|] eqn:Hlast.
  - destruct (RateLimiter.Qlt_bool _ _) eqn:Hcmp; cbn [fst snd now trace patents] in *;
      (do 2 eexists; split; [reflexivity|]); cbn [now trace from_option];
      (split; [reflexivity|]);
      (split; [rewrite !sleeps_app; cbn; by rewrite ?app_nil_r|]); intros Hlat.
    + apply Qlt_bool_true in Hcmp. pose proof (Hlat (trace w)).
      match goal with |- _ <= _ + latency E ?t /\ _ => pose proof (Hlat t) end.
      split; [lra|]. intros last' [= <-]. lra.
    + apply Qlt_bool_false in Hcmp. pose proof (Hlat (trace w)).
      match goal with |- _ <= _ + latency E ?t /\ _ => pose proof (Hlat t) end.
      split; [lra|]. intros last' [= <-]. lra.
  - do 2 eexists; split; [reflexivity|]; cbn [fst snd now trace from_option].
    split; [reflexivity|].
    split; [rewrite !sleeps_app; cbn; by rewrite ?app_nil_r|]. intros Hlat.
    pose proof (Hlat (trace w)). split; [lra|]. intros last [=].
Qed.

(** X1. The first call of a thread records the thread and does not sleep,
    whatever the delay and whatever the other threads did. *)
Theorem first_wait_never_sleeps (self : RateLimiter.t) (w : World) (tid : nat) :
  RateLimiter.last_call self !! tid = None ->
  exists self' w',
    RateLimiter.wait E tid (self, w) = (Ok tt, (self', w'))
    /\ sleeps (trace w') = sleeps (trace w)
    /\ RateLimiter.last_call self' !! tid = Some (now w')
    /\ dom (RateLimiter.last_call self') = {[ tid ]} ∪ dom (RateLimiter.last_call self).
Proof.
  intros Hnew. destruct (wait_effect self w tid) as (self' & w' & Hrun & -> & Hsl & _).
  unfold requested_sleep in Hsl. rewrite Hnew in Hsl. cbn in Hsl. rewrite app_nil_r in Hsl.
  do 2 eexists. split; [exact Hrun|]. cbn [RateLimiter.last_call].
  split; [exact Hsl|]. split; [apply lookup_insert_eq | apply dom_insert_L].
Qed.

(** X2. A call of [wait] sleeps at most once; when the thread calls again
    before its delay has passed, it asks for exactly the rest of the
    delay, which is positive, and otherwise for nothing. *)
Theorem wait_sleeps_for_the_rest (self : RateLimiter.t) (w : World) (tid : nat) (last : Q) :
  RateLimiter.last_call self !! tid = Some last ->
  exists self' w',
    RateLimiter.wait E tid (self, w) = (Ok tt, (self', w'))
    /\ (reading E w - last < RateLimiter.delay self ->
        sleeps (trace w')
        = sleeps (trace w) ++ [RateLimiter.delay self - (reading E w - last)]
        /\ 0 < RateLimiter.delay self - (reading E w - last))
    /\ (RateLimiter.delay self <= reading E w - last ->
        sleeps (trace w') = sleeps (trace w)).
Proof.
  intros Hlast. destruct (wait_effect self w tid) as (self' & w' & Hrun & -> & Hsl & _).
  unfold requested_sleep in Hsl. rewrite Hlast in Hsl.
  do 2 eexists. split; [exact Hrun|]. split.
  - intros Hearly. destruct (RateLimiter.Qlt_bool _ _) eqn:Hcmp.
    + split; [exact Hsl | lra].
    + apply Qlt_bool_false in Hcmp. lra.
  - intros Hlate. destruct (RateLimiter.Qlt_bool _ _) eqn:Hcmp.
    + apply Qlt_bool_true in Hcmp. lra.
    + cbn in Hsl. by rewrite app_nil_r in Hsl.
Qed.

Lemma waits_others (others : list nat) (tid : nat) (self : RateLimiter.t) (w : World) :
  Forall (fun other => other <> tid) others ->
  exists self' w',
    waits E others (self, w) = (Ok tt, (self', w'))
    /\ RateLimiter.delay self' = RateLimiter.delay self
    /\ RateLimiter.last_call self' !! tid = RateLimiter.last_call self !! tid
    /\ ((forall tr, 0 <= latency E tr) -> now w <= now w').
Proof.
  intros Hall. revert self w. induction Hall as [|other others Hne _ IH]; intros self w.
  - exists self, w. repeat split. intros _. lra.
  - cbn [waits]. unfold bind at 1.
    destruct (wait_effect self w other) as (self1 & w1 & -> & -> & _ & Hmono).
    destruct (IH {| RateLimiter.delay := RateLimiter.delay self;
                    RateLimiter.last_call := <[other := now w1]> (RateLimiter.last_call self) |}
                 w1) as (self' & w' & Hrun & Hd & Hl & Hm).
    exists self', w'. split; [exact Hrun|]. cbn [RateLimiter.delay RateLimiter.last_call] in *.
    split; [exact Hd|]. split.
    + rewrite Hl. by apply lookup_insert_ne.
    + intros Hlat. destruct (Hmono Hlat) as [H1 _]. specialize (Hm Hlat). lra.
Qed.

(** X3. Two calls of [wait] by one thread, with any calls of other threads in
    between, leave time stamps that are at least one delay apart.  The
    clock is assumed not to run backwards. *)
Theorem waits_of_a_thread_are_spaced (self : RateLimiter.t) (w : World) (tid : nat)
    (others : list nat) :
  (forall tr, 0 <= latency E tr) ->
  Forall (fun other => other <> tid) others ->
  exists self1 w1 self3 w3,
    RateLimiter.wait E tid (self, w) = (Ok tt, (self1, w1))
    /\ waits E (tid :: others ++ [tid]) (self, w) = (Ok tt, (self3, w3))
    /\ RateLimiter.last_call self1 !! tid = Some (now w1)
    /\ RateLimiter.last_call self3 !! tid = Some (now w3)
    /\ now w1 + RateLimiter.delay self <= now w3.
Proof.
  intros Hlat Hothers.
  destruct (wait_effect self w tid) as (self1 & w1 & Hrun1 & Hself1 & _).
  destruct (waits_others others tid self1 w1 Hothers) as (self2 & w2 & Hrun2 & Hd2 & Hl2 & _).
  destruct (wait_effect self2 w2 tid) as (self3 & w3 & Hrun3 & Hself3 & _ & Hpace).
  destruct (Hpace Hlat) as [_ Hp].
  assert (Hstamp : RateLimiter.last_call self2 !! tid = Some (now w1)).
  { rewrite Hl2, Hself1. apply lookup_insert_eq. }
  exists self1, w1, self3, w3. split; [exact Hrun1|].
  split.
  - cbn [waits]. unfold bind at 1. rewrite Hrun1.
    assert (Happ : forall l s r, waits E l s = (Ok tt, r) ->
                     waits E (l ++ [tid]) s = RateLimiter.wait E tid r).
    { induction l as [|x l IHl]; intros s r Hr.
      - cbn in Hr. injection Hr as <-. cbn [app waits]. unfold bind.
        by destruct (RateLimiter.wait E tid s) as [[[]|e] s'].
      - cbn [app waits] in *. unfold bind at 1. unfold bind at 1 in Hr.
        destruct (RateLimiter.wait E x s) as [[[]|e] s']; [|discriminate].
        by apply IHl. }
    rewrite (Happ _ _ _ Hrun2). exact Hrun3.
  - rewrite Hself1, Hself3. cbn [RateLimiter.last_call RateLimiter.delay].
    split; [apply lookup_insert_eq|]. split; [apply lookup_insert_eq|].
    rewrite Hd2, Hself1 in Hp. by apply Hp.
Qed.
End LimiterFacts.

Section ClientFacts.
Import Harvest.
Context (E : Env).

(** X4. [get_oauth_token] never raises and sends exactly one authentication
    request.  It returns the value under [access_token] when the request
    went through, the status is no error and the body is an object with
    that key, and the empty string in every other case: the request
    raised, the status is an error, the body does not decode, or it has no
    such key. *)
Theorem get_oauth_token_never_raises {O} (key secret : string) (o : O) (w : World) :
  exists tok w',
    get_oauth_token E key secret (o, w) = (Ok tok, (o, w'))
    /\ auth_calls (trace w') = S (auth_calls (trace w))
    /\ gets (trace w') = gets (trace w)
    /\ patents w' = patents w
    /\ (forall e, requests_post E (trace w) auth_url (key, secret) = Raise e ->
        tok = JStr "")
    /\ (forall resp,
          requests_post E (trace w) auth_url (key, secret) = Ok resp ->
          ((400 <= status_code resp < 600)%Z -> tok = JStr "")
          /\ (forall e, json_body resp = Raise e -> tok = JStr "")
          /\ (forall data e,
                json_body resp = Ok data -> py_getitem data "access_token" = Raise e ->
                tok = JStr "")
          /\ (forall data t,
                ~ (400 <= status_code resp < 600)%Z ->
                json_body resp = Ok data -> py_getitem data "access_token" = Ok t ->
                tok = t)).
Proof.
  destruct (get_oauth_token_spec E key secret o w) as (ev & Hev & Hrun).
  do 2 eexists. split; [exact Hrun|]. cbn [trace patents].
  rewrite !auth_calls_app, !gets_app.
  assert (Hst : forall resp, (400 <= status_code resp < 600)%Z ->
                  raise_for_status resp = Raise (RequestException (Some (content resp)))).
  { intros resp [H1 H2]. unfold raise_for_status.
    apply Z.leb_le in H1. apply Z.ltb_lt in H2. by rewrite H1, H2. }
  assert (Hok : forall resp, ~ (400 <= status_code resp < 600)%Z ->
                  raise_for_status resp = Ok tt).
  { intros resp Hn. unfold raise_for_status.
    destruct (400 <=? status_code resp)%Z eqn:H1; [|done].
    destruct (status_code resp <? 600)%Z eqn:H2; [|done].
    apply Z.leb_le in H1. apply Z.ltb_lt in H2. lia. }
  split; [destruct ev; try discriminate Hev; cbn; lia|].
  split; [destruct ev; try discriminate Hev; cbn; by rewrite !app_nil_r|].
  split; [done|]. split.
  - by intros e ->.
  - intros resp ->. cbn [granted]. repeat split.
    + intros Hs. by rewrite (Hst _ Hs).
    + intros e He. rewrite He. by destruct (raise_for_status resp).
    + intros data e Hd Hk. rewrite Hd, Hk. by destruct (raise_for_status resp).
    + intros data t Hs Hd Hk. by rewrite (Hok _ Hs), Hd, Hk.
Qed.

(** X5. The constructor always builds a client, after one authentication
    request: the validity is 1200 seconds whatever the server answered, the
    [Authorization] header is ["Bearer "] followed by the token, and the
    acquisition time is the clock reading taken after the request.  When
    the request is not granted the client holds the empty token. *)
Theorem init_always_builds_a_client (key secret : string) (w : World) :
  exists c w',
    init E key secret (tt, w) = (Ok c, (tt, w'))
    /\ token_valid_for c == 1200
    /\ authorized E c
    /\ headers c !! "accept" = Some "application/json"
    /\ base_url c = "https://ops.epo.org/3.2/rest-services"
    /\ token_acquired_time c = now w'
    /\ auth_calls (trace w') = S (auth_calls (trace w))
    /\ (granted (requests_post E (trace w) auth_url (key, secret)) = None ->
        token c = JStr "" /\ headers c !! "Authorization" = Some "Bearer ").
Proof.
  cbv [init bind].
  destruct (get_oauth_token_spec E key secret tt w) as (ev & Hev & ->).
  cbv [time_time elapse get_trace advance emit ret bind]. cbn [fst snd now trace patents].
  do 2 eexists. split; [reflexivity|].
  cbn [token_valid_for headers base_url token_acquired_time token now trace].
  unfold authorized. cbn [headers token].
  split; [reflexivity|]. split; [reflexivity|]. split; [reflexivity|].
  split; [reflexivity|]. split; [reflexivity|]. split.
  - rewrite !auth_calls_app. destruct ev; try discriminate Hev; cbn; lia.
  - intros ->. split; reflexivity.
Qed.

Lemma ensured_keeps (c : EPOClient) (w : World) :
  authorized E c ->
  authorized E (fst (ensured E (c, w)))
  /\ base_url (fst (ensured E (c, w))) = base_url c
  /\ token_valid_for (fst (ensured E (c, w))) = token_valid_for c.
Proof.
  intros Hc. unfold ensured.
  destruct (ensure_token_spec E c w) as (c' & w' & -> & Hb & Hv & _ & _ & _ & Hcase).
  cbn [fst snd]. split; [|done].
  destruct (refresh_due c (reading E w)).
  - destruct Hcase as (_ & Htok & Hhd & _). unfold authorized.
    rewrite Hhd, Htok. apply lookup_insert_eq.
  - by destruct Hcase as [-> _].
Qed.

Lemma kept_ensured (c0 c : EPOClient) (w : World) :
  kept E c0 c -> kept E c0 (fst (ensured E (c, w))).
Proof.
  intros (Ha & Hb & Hv). destruct (ensured_keeps c w Ha) as (Ha' & Hb' & Hv').
  unfold kept. by rewrite Hb', Hv'.
Qed.

Lemma for_each_kept (c0 : EPOClient) (docs : list json) (s : EPOClient * World) :
  kept E c0 (fst s) -> kept E c0 (fst (snd (for_each docs (process_doc E) s))).
Proof.
  revert s. induction docs as [|doc docs IH]; intros [c w] Hk; [exact Hk|].
  rewrite for_each_cons. pose proof (process_doc_cases E doc (c, w)) as H.
  destruct (identify E doc) as [id|e].
  - destruct H as (w1 & _ & _ & _ & H).
    destruct (detail_outcome _ _) as [d|e].
    + destruct H as (w' & _ & _ & H).
      destruct (insert_one E (trace w1) d); destruct H as [-> _].
      * by apply kept_ensured.
      * apply IH. by apply kept_ensured.
    + rewrite H. by apply kept_ensured.
  - by rewrite H.
Qed.

Lemma process_keyword_kept (c0 : EPOClient) (keyword : string) (s : EPOClient * World) :
  kept E c0 (fst s) -> kept E c0 (fst (snd (process_keyword E keyword s))).
Proof.
  destruct s as [c w]. intros Hk.
  destruct (search_patents_spec E keyword (c, w)) as (w1 & Hrun & _).
  cbv [process_keyword bind]. rewrite Hrun.
  pose proof (kept_ensured c0 c w Hk) as Hk1.
  destruct (search_outcome _) as [results|e]; [|exact Hk1].
  destruct (truthy results); cbn [negb]; [|exact Hk1].
  cbv [try_except bind lift ret logging emit is_Exception]. cbn [fst snd now trace patents].
  destruct (patent_docs_of results) as [patent_docs|e]; [|exact Hk1].
  destruct (truthy patent_docs); cbn [negb]; [|exact Hk1].
  destruct (py_slice 100 patent_docs) as [docs|e]; [|exact Hk1].
  match goal with
  | |- context [for_each docs (process_doc E) ?x] =>
      pose proof (for_each_kept c0 docs x Hk1) as Hloop;
      destruct (for_each docs (process_doc E) x) as [[[]|e] s3]
  end; exact Hloop.
Qed.

Lemma submit_all_preserves {O I A} (task : I -> M O A) (P : O -> Prop) :
  (forall x s, P (fst s) -> P (fst (snd (task x s)))) ->
  forall items s, P (fst s) -> P (fst (snd (submit_all task items s))).
Proof.
  intros Htask. induction items as [|x items IH]; intros s Hs; [exact Hs|].
  cbn [submit_all]. unfold bind at 1. rewrite run_task_future.
  destruct (submit_all_spec task items (snd (task x s))) as (fs & s' & Hrun & _).
  pose proof (IH (snd (task x s)) (Htask x s Hs)) as H. rewrite Hrun in H.
  unfold bind at 1. by rewrite Hrun.
Qed.

(** X6. The client stays in step when the keywords are processed one after
    the other: when its [Authorization] header is ["Bearer "] followed by
    its token before them, as the constructor leaves it, it is so after
    them, with every refresh in between, and the base URL and the validity
    are those it started with. *)
Theorem client_stays_authorized (keywords : list string) (s : EPOClient * World) :
  authorized E (fst s) ->
  authorized E (fst (snd (submit_all (process_keyword E) keywords s)))
  /\ base_url (fst (snd (submit_all (process_keyword E) keywords s))) = base_url (fst s)
  /\ token_valid_for (fst (snd (submit_all (process_keyword E) keywords s)))
     = token_valid_for (fst s).
Proof.
  intros Hs.
  apply (submit_all_preserves (process_keyword E) (kept E (fst s))).
  - intros keyword s0. apply process_keyword_kept.
  - by split.
Qed.

(** X7. A refresh is not tried again by the next call, whether it was granted
    or not: when [ensure_token] has refreshed, a second call that reads the
    clock less than the validity minus 60 seconds later changes nothing
    and sends no request. *)
Theorem refresh_is_not_retried (c : EPOClient) (w : World) :
  token_valid_for c - 60 <= reading E w - token_acquired_time c ->
  exists c1 w1,
    ensure_token E (c, w) = (Ok tt, (c1, w1))
    /\ (latency E (trace w1) < token_valid_for c - 60 ->
        exists w2,
          ensure_token E (c1, w1) = (Ok tt, (c1, w2))
          /\ auth_calls (trace w2) = auth_calls (trace w1)).
Proof.
  intros Hdue. apply refresh_due_true in Hdue.
  destruct (ensure_token_spec E c w) as (c1 & w1 & Hrun & _ & Hv & _ & _ & _ & Hcase).
  rewrite Hdue in Hcase. destruct Hcase as (_ & _ & _ & Ht).
  exists c1, w1. split; [exact Hrun|]. intros Hsoon.
  destruct (ensure_token_spec E c1 w1) as (c2 & w2 & Hrun2 & _ & _ & _ & _ & _ & Hcase2).
  assert (Hfresh : refresh_due c1 (reading E w1) = false).
  { apply refresh_due_false. rewrite Ht, Hv. unfold reading. lra. }
  rewrite Hfresh in Hcase2. destruct Hcase2 as [-> Hn].
  exists w2. by split.
Qed.
End ClientFacts.

Section ChainFacts.

Lemma get_chain_empty (keys : list string) (last : string) (d : json) :
  get_chain keys last d (JObj []) = Ok d.
Proof. induction keys as [|k keys IH]; cbn; [done | exact IH]. Qed.

Lemma get_chain_value (keys : list string) (last : string) (d v x : json) :
  at_path (keys ++ [last]) v = Some x -> get_chain keys last d v = Ok x.
Proof.
  revert v. induction keys as [|k keys IH]; intros v; cbn [app at_path get_chain];
    unfold py_get; (destruct v; try discriminate).
  - destruct (assoc last fields); [|discriminate]. by intros [= ->].
  - destruct (assoc k fields) as [v'|]; [|discriminate]. apply IH.
Qed.

Lemma get_chain_ok (keys : list string) (last : string) (d v x : json) :
  get_chain keys last d v = Ok x -> x = d \/ at_path (keys ++ [last]) v = Some x.
Proof.
  revert v. induction keys as [|k keys IH]; intros v; cbn [app at_path get_chain];
    unfold py_get; (destruct v; try discriminate).
  - destruct (assoc last fields); cbn [from_option id]; intros [= <-];
      [by right | by left].
  - destruct (assoc k fields) as [v'|]; cbn [from_option id].
    + apply IH.
    + rewrite get_chain_empty. intros [= <-]. by left.
Qed.

Lemma get_chain_raise (keys : list string) (last : string) (d v : json) (e : exn) :
  get_chain keys last d v = Raise e ->
  e = AttributeError
  /\ exists n v', at_path (take n keys) v = Some v' /\ is_object v' = false.
Proof.
  assert (Hhere : forall keys' (v' : json),
             is_object v' = false ->
             exists n v'', at_path (take n keys') v' = Some v'' /\ is_object v'' = false).
  { intros keys' v' Hv. exists 0%nat, v'. by rewrite take_0. }
  revert v. induction keys as [|k keys IH]; intros v.
  - destruct v; cbn; intros [= <-]; (split; [done|]); by apply Hhere.
  - destruct v; cbn [get_chain py_get];
      try (intros [= <-]; (split; [done|]); by apply Hhere).
    destruct (assoc k fields) as [v'|] eqn:Hk; cbn [from_option id].
    + intros H. destruct (IH v' H) as (-> & n & v'' & Hp & Hv). split; [done|].
      exists (S n), v''. cbn [take at_path]. by rewrite Hk.
    + by rewrite get_chain_empty.
Qed.

Lemma get_chain_missing (keys : list string) (last : string) (d v : json)
    (pre post : list string) (k : string) (fields : list (string * json)) :
  keys ++ [last] = pre ++ k :: post ->
  at_path pre v = Some (JObj fields) ->
  assoc k fields = None ->
  get_chain keys last d v = Ok d.
Proof.
  revert keys v. induction pre as [|p pre IH]; intros keys v Hsplit Hpath Hk.
  - cbn in Hpath. injection Hpath as ->. destruct keys as [|k' keys]; cbn in Hsplit;
      injection Hsplit as -> _; cbn [get_chain]; unfold py_get; rewrite Hk;
      cbn [from_option]; [done | apply get_chain_empty].
  - destruct keys as [|k' keys]; cbn in Hsplit.
    + injection Hsplit as _ Hnil. by destruct pre.
    + injection Hsplit as -> Hsplit. cbn [at_path] in Hpath.
      destruct v; try discriminate.
      cbn [get_chain]. unfold py_get.
      destruct (assoc p fields0) as [v'|]; [|discriminate]. cbn [from_option id].
      by apply (IH keys v').
Qed.

(** X8. The two chains of [.get] of [main.py], on the body of an abstract and
    on a search result.  A chain returns the value under the path when
    every step is an object that has the key, and the default of its last
    call when there is none; it returns the default as soon as a key is
    missing from an object on the way; and it raises, always
    [AttributeError], exactly when the path leads to something that is not
    an object, such as a list of abstracts. *)
Theorem chains_of_get :
  (forall data,
      Harvest.abstract_of data
      = get_chain abstract_keys "$" (JStr "No abstract available") data)
  /\ (forall results,
        Harvest.patent_docs_of results
        = get_chain references_keys "ops:publication-reference" (JArr []) results)
  /\ forall keys last d v,
      (forall x, at_path (keys ++ [last]) v = Some x -> get_chain keys last d v = Ok x)
      /\ (forall x, get_chain keys last d v = Ok x ->
                    x = d \/ at_path (keys ++ [last]) v = Some x)
      /\ (forall pre k post fields,
            keys ++ [last] = pre ++ k :: post ->
            at_path pre v = Some (JObj fields) -> assoc k fields = None ->
            get_chain keys last d v = Ok d)
      /\ (forall e, get_chain keys last d v = Raise e ->
                    e = AttributeError
                    /\ exists n v', at_path (take n keys) v = Some v' /\ is_object v' = false).
Proof.
  split; [reflexivity|]. split; [reflexivity|]. intros keys last d v. split; [|split; [|split]].
  - intros x. apply get_chain_value.
  - intros x. apply get_chain_ok.
  - intros pre k post fields. apply get_chain_missing.
  - intros e H. by apply get_chain_raise in H.
Qed.

Lemma abstract_of_raises (data : json) (e : exn) :
  Harvest.abstract_of data = Raise e -> e = AttributeError.
Proof.
  change (Harvest.abstract_of data)
    with (get_chain abstract_keys "$" (JStr "No abstract available") data).
  intros H. by apply get_chain_raise in H as [-> _].
Qed.
End ChainFacts.

Section KeywordFacts.
Import Harvest.
Context (E : Env).

(** The result of [search_patents] for each kind of reply. *)
Lemma search_patents_result (keyword : string) (s : EPOClient * World) :
  (forall v, decoded (search_reply E keyword s) = Ok v ->
             fst (search_patents E keyword s) = Ok v)
  /\ (forall body,
        decoded (search_reply E keyword s) = Raise (RequestException (Some body)) ->
        fst (search_patents E keyword s) = Ok JNull)
  /\ (decoded (search_reply E keyword s) = Raise (RequestException None) ->
      fst (search_patents E keyword s) = Raise AttributeError)
  /\ (forall e,
        decoded (search_reply E keyword s) = Raise e -> is_RequestException e = false ->
        fst (search_patents E keyword s) = Raise e).
Proof.
  destruct (search_patents_spec E keyword s) as (w' & -> & _).
  cbn [fst]. unfold search_outcome. repeat split.
  - by intros v ->.
  - by intros body ->.
  - by intros ->.
  - intros e -> He. by destruct e.
Qed.

(** X9. What [search_patents] does with each kind of reply: the decoded body
    is returned; a [requests.RequestException] that carries a response (an
    error status) is logged and gives [None]; one that carries none (a
    connection error) makes the handler itself raise [AttributeError], on
    [e.response.content]; any other exception passes through. *)
Theorem search_patents_outcomes (keyword : string) (s : EPOClient * World) :
  (forall v, decoded (search_reply E keyword s) = Ok v ->
             fst (search_patents E keyword s) = Ok v)
  /\ (forall body,
        decoded (search_reply E keyword s) = Raise (RequestException (Some body)) ->
        fst (search_patents E keyword s) = Ok JNull)
  /\ (decoded (search_reply E keyword s) = Raise (RequestException None) ->
      fst (search_patents E keyword s) = Raise AttributeError)
  /\ (forall e,
        decoded (search_reply E keyword s) = Raise e -> is_RequestException e = false ->
        fst (search_patents E keyword s) = Raise e).
Proof. apply search_patents_result. Qed.

Lemma process_keyword_result (keyword : string) (s : EPOClient * World) :
  fst (process_keyword E keyword s)
  = match fst (search_patents E keyword s) with
    | Ok _ => Ok tt
    | Raise x => Raise x
    end.
Proof.
  cbv [process_keyword bind].
  destruct (search_patents E keyword s) as [[results|x] s1]; [|reflexivity].
  cbn [fst]. destruct (truthy results); cbn [negb]; [|reflexivity].
  cbv [try_except bind lift ret logging emit is_Exception].
  destruct (patent_docs_of results) as [patent_docs|e]; [|reflexivity].
  destruct (truthy patent_docs); cbn [negb]; [|reflexivity].
  cbn [fst snd].
  destruct (py_slice 100 patent_docs) as [docs|e]; [|reflexivity].
  match goal with
  | |- context [for_each docs ?b ?x] => by destruct (for_each docs b x) as [[[]|e] s3]
  end.
Qed.

(** What is raised after the search is the last thing [process_keyword]
    logs. *)
Lemma process_keyword_logs_error (keyword : string) (s : EPOClient * World)
    (results : json) (e : exn) :
  fst (search_patents E keyword s) = Ok results ->
  truthy results = true ->
  patent_docs_of results = Raise e
  \/ (exists patent_docs,
         patent_docs_of results = Ok patent_docs
         /\ truthy patent_docs = true
         /\ py_slice 100 patent_docs = Raise e)
  \/ fst (for_each (matched_references results) (process_doc E) (loop_start E keyword s))
     = Raise e ->
  last (trace (snd (snd (process_keyword E keyword s))))
  = Some (EvLog ERROR ("Error processing results for keyword '" +:+ keyword +:+ "'")
            (Some e)).
Proof.
  intros Hsearch Htruthy [Hdocs | [(patent_docs & Hdocs & Htd & Hslice) | Hloop]].
  - cbv [process_keyword bind].
    destruct (search_patents E keyword s) as [[r|x] [c1 w1]]; [|discriminate].
    cbn [fst] in Hsearch. injection Hsearch as ->. rewrite Htruthy. cbn [negb].
    cbv [try_except bind lift ret logging emit is_Exception]. rewrite Hdocs.
    cbn [fst snd now trace patents]. apply last_snoc.
  - cbv [process_keyword bind].
    destruct (search_patents E keyword s) as [[r|x] [c1 w1]]; [|discriminate].
    cbn [fst] in Hsearch. injection Hsearch as ->. rewrite Htruthy. cbn [negb].
    cbv [try_except bind lift ret logging emit is_Exception]. rewrite Hdocs, Htd.
    cbn [negb fst snd now trace patents]. rewrite Hslice.
    cbn [fst snd now trace patents]. apply last_snoc.
  - assert (Hne : matched_references results <> []).
    { intros Hnil. rewrite Hnil in Hloop. discriminate Hloop. }
    rewrite (process_keyword_loop E keyword s results Hsearch Hne).
    destruct (for_each _ _ _) as [[[]|x] s3]; [discriminate|].
    cbn [fst] in Hloop. injection Hloop as ->. cbn [snd trace]. apply last_snoc.
Qed.

(** X10. [process_keyword] raises exactly when [search_patents] does, with the
    same exception, and returns [None] otherwise: whatever goes wrong
    after the search (an unexpected shape of the result, a failed detail
    request, a failed insert) is caught and logged, the error being the
    last line [process_keyword] logs.  In particular a connection error of
    the search leaves [AttributeError] in the future of the keyword. *)
Theorem process_keyword_raises_with_search (keyword : string) (s : EPOClient * World) :
  (forall x, fst (process_keyword E keyword s) = Raise x
             <-> fst (search_patents E keyword s) = Raise x)
  /\ (fst (process_keyword E keyword s) = Ok tt
      <-> exists results, fst (search_patents E keyword s) = Ok results)
  /\ (decoded (search_reply E keyword s) = Raise (RequestException None) ->
      fst (run_task (process_keyword E keyword) s) = Ok (Excepted AttributeError))
  /\ (forall results e,
        fst (search_patents E keyword s) = Ok results ->
        truthy results = true ->
        patent_docs_of results = Raise e
        \/ (exists patent_docs,
               patent_docs_of results = Ok patent_docs
               /\ truthy patent_docs = true
               /\ py_slice 100 patent_docs = Raise e)
        \/ fst (for_each (matched_references results) (process_doc E)
                  (loop_start E keyword s))
           = Raise e ->
        last (trace (snd (snd (process_keyword E keyword s))))
        = Some (EvLog ERROR ("Error processing results for keyword '" +:+ keyword +:+ "'")
                  (Some e))).
Proof.
  split; [|split; [|split]].
  - intros x. rewrite process_keyword_result.
    destruct (fst (search_patents E keyword s)); split; congruence.
  - rewrite process_keyword_result.
    destruct (fst (search_patents E keyword s)) as [r|x]; split;
      [by eexists | done | discriminate | by intros [r [=]]].
  - intros Hdec. rewrite run_task_future, process_keyword_result.
    destruct (search_patents_result keyword s) as (_ & _ & H & _).
    by rewrite (H Hdec).
  - intros results e. apply process_keyword_logs_error.
Qed.

(** The requests and the writes of the loop over the references. *)
Lemma for_each_requests (docs : list json) (s : EPOClient * World) :
  exists requested inserted stored,
    gets (trace (snd (snd (for_each docs (process_doc E) s))))
    = gets (trace (snd s)) ++ requested
    /\ inserts (trace (snd (snd (for_each docs (process_doc E) s))))
       = inserts (trace (snd s)) ++ inserted
    /\ patents (snd (snd (for_each docs (process_doc E) s))) = patents (snd s) ++ stored
    /\ (length requested <= length docs)%nat
    /\ (length inserted <= length requested)%nat
    /\ (inserted = stored \/ exists d, inserted = stored ++ [d]).
Proof.
  revert s. induction docs as [|doc docs IH]; intros s.
  - exists [], [], []. cbn. rewrite !app_nil_r. repeat split; [lia | lia | by left].
  - rewrite for_each_cons. pose proof (process_doc_cases E doc s) as H.
    destruct (identify E doc) as [id|e].
    + cbv zeta in H. destruct H as (w1 & Hp1 & Hi1 & Hg1 & H).
      destruct (detail_outcome _ _) as [d|e].
      * destruct H as (w' & Hi & Hg & H).
        destruct (insert_one E (trace w1) d) as [e|]; destruct H as [-> Hp].
        -- eexists [_], [d], []. cbn [fst snd length]. rewrite Hg, Hi, Hp, app_nil_r.
           repeat split; [lia | lia | right; by exists d].
        -- destruct (IH (fst (ensured E s), w'))
             as (rq & ins & st & Hgets & Hins & Hpat & Hl1 & Hl2 & Hrel).
           cbn [fst snd] in *. rewrite Hgets, Hins, Hpat, Hg, Hi, Hp, <- !app_assoc.
           eexists (_ :: rq), (d :: ins), (d :: st). cbn [app length].
           repeat split; [lia | lia |].
           destruct Hrel as [-> | [d' ->]]; [by left | right; by exists d'].
      * rewrite H. eexists [_], [], []. cbn [fst snd length].
        rewrite Hg1, Hi1, Hp1, !app_nil_r. repeat split; [lia | lia | by left].
    + rewrite H. exists [], [], []. cbn. rewrite !app_nil_r.
      repeat split; [lia | lia | by left].
Qed.

(** The requests and the writes of [process_keyword]. *)
Lemma process_keyword_requests (keyword : string) (s : EPOClient * World) :
  exists requested inserted stored,
    gets (trace (snd (snd (process_keyword E keyword s))))
    = gets (trace (snd s)) ++ search_endpoint E (fst (ensured E s)) keyword :: requested
    /\ inserts (trace (snd (snd (process_keyword E keyword s))))
       = inserts (trace (snd s)) ++ inserted
    /\ patents (snd (snd (process_keyword E keyword s))) = patents (snd s) ++ stored
    /\ (length requested <= 100)%nat
    /\ (length inserted <= length requested)%nat
    /\ (inserted = stored \/ exists d, inserted = stored ++ [d]).
Proof.
  destruct (search_patents_spec E keyword s) as (w1 & Hrun & Hpat & Hgets & Hins & _).
  cbv [process_keyword bind]. rewrite Hrun.
  assert (Hnone : forall (r : result unit) w2,
             gets (trace w2) = gets (trace w1) -> inserts (trace w2) = inserts (trace w1) ->
             patents w2 = patents w1 ->
             exists requested inserted stored,
               gets (trace (snd (snd (r, (fst (ensured E s), w2)))))
               = gets (trace (snd s)) ++ search_endpoint E (fst (ensured E s)) keyword :: requested
               /\ inserts (trace (snd (snd (r, (fst (ensured E s), w2)))))
                  = inserts (trace (snd s)) ++ inserted
               /\ patents (snd (snd (r, (fst (ensured E s), w2)))) = patents (snd s) ++ stored
               /\ (length requested <= 100)%nat
               /\ (length inserted <= length requested)%nat
               /\ (inserted = stored \/ exists d, inserted = stored ++ [d])).
  { intros r w2 Hg Hi Hp. exists [], [], []. cbn [fst snd length].
    rewrite Hg, Hi, Hp, Hgets, Hins, Hpat, !app_nil_r.
    repeat split; [lia | lia | by left]. }
  destruct (search_outcome _) as [results|e]; [|by apply Hnone].
  destruct (truthy results); cbn [negb]; [|by apply Hnone].
  cbv [try_except bind lift ret logging emit is_Exception]. cbn [fst snd now trace patents].
  destruct (patent_docs_of results) as [patent_docs|e];
    [|apply Hnone; cbn [fst snd now trace patents];
      repeat (rewrite gets_app || rewrite inserts_app); cbn; by rewrite ?app_nil_r].
  destruct (truthy patent_docs); cbn [negb]; [|by apply Hnone].
  destruct (py_slice 100 patent_docs) as [docs|e] eqn:Hslice;
    [|apply Hnone; cbn [fst snd now trace patents];
      repeat (rewrite gets_app || rewrite inserts_app); cbn; by rewrite ?app_nil_r].
  assert (Hlen : (length docs <= 100)%nat).
  { destruct patent_docs; try discriminate Hslice; injection Hslice as <-.
    - rewrite length_map, length_take. lia.
    - rewrite length_take. lia. }
  match goal with
  | |- context [for_each docs (process_doc E) ?x] => set (s2 := x)
  end.
  destruct (for_each_requests docs s2)
    as (rq & ins & st & Hg2 & Hi2 & Hp2 & Hl1 & Hl2 & Hrel).
  exists rq, ins, st.
  assert (Hs2g : gets (trace (snd s2)) = gets (trace (snd s))
                                         ++ [search_endpoint E (fst (ensured E s)) keyword]).
  { subst s2. cbn [snd trace]. rewrite gets_app, Hgets. cbn. by rewrite app_nil_r. }
  assert (Hs2i : inserts (trace (snd s2)) = inserts (trace (snd s))).
  { subst s2. cbn [snd trace]. rewrite inserts_app, Hins. cbn. by rewrite app_nil_r. }
  assert (Hs2p : patents (snd s2) = patents (snd s)) by (subst s2; exact Hpat).
  rewrite Hs2g, <- app_assoc in Hg2. rewrite Hs2i in Hi2. rewrite Hs2p in Hp2.
  destruct (for_each docs (process_doc E) s2) as [[[]|e] s3]; cbn [fst snd trace patents] in *.
  - repeat split; try assumption. lia.
  - rewrite gets_app, inserts_app. cbn. rewrite !app_nil_r.
    repeat split; try assumption. lia.
Qed.

(** X11. For one keyword [process_keyword] sends the search request and then
    at most one hundred detail requests; it gives a document to
    [insert_one] only after the detail request for it, so not more
    documents than detail requests; and the collection receives the
    documents given to [insert_one], in order, all of them or all but the
    last, never anything else, and loses none it had. *)
Theorem process_keyword_is_bounded (keyword : string) (s : EPOClient * World) :
  exists requested inserted stored,
    gets (trace (snd (snd (process_keyword E keyword s))))
    = gets (trace (snd s)) ++ search_endpoint E (fst (ensured E s)) keyword :: requested
    /\ inserts (trace (snd (snd (process_keyword E keyword s))))
       = inserts (trace (snd s)) ++ inserted
    /\ patents (snd (snd (process_keyword E keyword s))) = patents (snd s) ++ stored
    /\ (length requested <= 100)%nat
    /\ (length inserted <= length requested)%nat
    /\ (inserted = stored \/ exists d, inserted = stored ++ [d]).
Proof. apply process_keyword_requests. Qed.
End KeywordFacts.

Section LoopFacts.
Import Harvest.
Context (E : Env).

(** X12. The loop over the references ends at the first reference that raises:
    one that is not of the shape [identify] reads, one whose detail body
    decodes but has not the shape [abstract_of] reads, one whose document
    [insert_one] refuses.  No later reference is requested, and nothing is
    stored for the reference itself. *)
Theorem loop_ends_at_first_error (doc : json) (rest : list json) (s : EPOClient * World)
    (e : exn) :
  (identify E doc = Raise e ->
   for_each (doc :: rest) (process_doc E) s = (Raise e, s))
  /\ (forall pn pt data,
        identify E doc = Ok (pn, pt) ->
        decoded (detail_reply E pn pt s) = Ok data ->
        abstract_of data = Raise e ->
        exists w',
          for_each (doc :: rest) (process_doc E) s = (Raise e, (fst (ensured E s), w'))
          /\ gets (trace w')
             = gets (trace (snd s)) ++ [detail_endpoint E (fst (ensured E s)) pn pt]
          /\ inserts (trace w') = inserts (trace (snd s))
          /\ patents w' = patents (snd s))
  /\ (forall pn pt d,
        identify E doc = Ok (pn, pt) ->
        detail_outcome pn (detail_reply E pn pt s) = Ok d ->
        (forall tr, insert_one E tr d = Some e) ->
        exists w',
          for_each (doc :: rest) (process_doc E) s = (Raise e, (fst (ensured E s), w'))
          /\ gets (trace w')
             = gets (trace (snd s)) ++ [detail_endpoint E (fst (ensured E s)) pn pt]
          /\ inserts (trace w') = inserts (trace (snd s)) ++ [d]
          /\ patents w' = patents (snd s)).
Proof.
  pose proof (process_doc_cases E doc s) as H. split; [|split].
  - intros Hid. rewrite Hid in H. by rewrite for_each_cons, H.
  - intros pn pt data Hid Hdec Hshape. rewrite Hid in H. cbn [fst snd] in H.
    destruct H as (w1 & Hp & Hi & Hg & H).
    assert (Hout : detail_outcome pn (detail_reply E pn pt s) = Raise e).
    { unfold detail_outcome, detail_attempt. rewrite Hdec, Hshape.
      by rewrite (abstract_of_raises data e Hshape). }
    rewrite Hout in H. exists w1. by rewrite for_each_cons, H.
  - intros pn pt d Hid Hout Hstore. rewrite Hid in H. cbn [fst snd] in H.
    destruct H as (w1 & _ & _ & _ & H). rewrite Hout in H.
    destruct H as (w' & Hi & Hg & H). rewrite Hstore in H. destruct H as [Hrun Hp].
    exists w'. by rewrite for_each_cons, Hrun.
Qed.

(** X13. When the search result is empty or not of the shape [process_keyword]
    reads, nothing more happens: the search is the only request, nothing
    is inserted, and [process_keyword] returns.  That is so when the result
    is falsy, when a step of the chain of [.get] is not an object, when
    there is no reference, and when the references cannot be sliced, as
    when the API gives a single reference as an object and not as a list. *)
Theorem nothing_to_process (keyword : string) (s : EPOClient * World) (results : json) :
  fst (search_patents E keyword s) = Ok results ->
  truthy results = false
  \/ (exists e, patent_docs_of results = Raise e)
  \/ (exists v, patent_docs_of results = Ok v
                /\ (truthy v = false \/ exists fields, v = JObj fields)) ->
  fst (process_keyword E keyword s) = Ok tt
  /\ gets (trace (snd (snd (process_keyword E keyword s))))
     = gets (trace (snd s)) ++ [search_endpoint E (fst (ensured E s)) keyword]
  /\ inserts (trace (snd (snd (process_keyword E keyword s)))) = inserts (trace (snd s))
  /\ patents (snd (snd (process_keyword E keyword s))) = patents (snd s).
Proof.
  intros Hsearch Hcase.
  split; [rewrite process_keyword_result; by rewrite Hsearch|].
  destruct (search_patents_spec E keyword s) as (w1 & Hrun & Hpat & Hgets & Hins & _).
  rewrite Hrun in Hsearch. cbn [fst] in Hsearch.
  cbv [process_keyword bind]. rewrite Hrun, Hsearch.
  destruct (truthy results) eqn:Htr; cbn [negb]; [|done].
  destruct Hcase as [Hf | [[e He] | (v & Hv & Hcase)]]; [discriminate| |];
    cbv [try_except bind lift ret logging emit is_Exception];
    cbn [fst snd now trace patents].
  - rewrite He. cbn [fst snd now trace patents].
    repeat (rewrite gets_app || rewrite inserts_app). cbn. by rewrite !app_nil_r.
  - rewrite Hv. destruct (truthy v) eqn:Htv; cbn [negb fst snd]; [|done].
    destruct Hcase as [Hf | [fields ->]]; [discriminate|].
    cbn [py_slice fst snd now trace patents].
    repeat (rewrite gets_app || rewrite inserts_app). cbn. by rewrite !app_nil_r.
Qed.
End LoopFacts.

Section KeywordsFacts.
#[local] Set Warnings "-clear-no-such-hyp".
Import Keywords.
Context (clean : string -> string) (n : nat).

Lemma collect_full (keywords : gset string) (rows : list (list string)) :
  (n <= size keywords)%nat -> collect clean n keywords rows = keywords.
Proof.
  intros Hfull. induction rows as [|[|cell row] rows IH]; cbn [collect]; try done.
  destruct (decide (size keywords < n)%nat); [lia | done].
Qed.

Lemma size_add (keywords : gset string) (k : string) :
  (size (keywords ∪ {[ k ]}) <= S (size keywords))%nat.
Proof.
  rewrite size_union_alt.
  assert (H : (size (({[ k ]} : gset string) ∖ keywords) <= 1)%nat).
  { rewrite <- (size_singleton (C := gset string) k). apply subseteq_size. set_solver. }
  lia.
Qed.

(** The set the loop builds: the cells of a prefix of the rows are added
    to the set, and its size is the number of different keywords offered,
    up to [n]. *)
Lemma collect_spec (keywords : gset string) (rows : list (list string)) :
  (size keywords <= n)%nat ->
  exists m,
    collect clean n keywords rows = keywords ∪ list_to_set (take m (cells clean rows))
    /\ size (collect clean n keywords rows)
       = (n `min` size (keywords ∪ list_to_set (cells clean rows)))%nat.
Proof.
  revert keywords. induction rows as [|[|cell row] rows IH]; intros keywords Hsize.
  - exists 0%nat. cbn. rewrite !(right_id_L ∅ (∪)). split; [done | lia].
  - cbn [collect cells omap list_omap]. apply IH, Hsize.
  - cbn [collect]. destruct (decide (size keywords < n)%nat) as [Hroom|Hfull].
    + destruct (IH (keywords ∪ {[ clean cell ]})) as (m & Heq & Hsz).
      { pose proof (size_add keywords (clean cell)). lia. }
      exists (S m). rewrite Hsz, Heq.
      change (cells clean ((cell :: row) :: rows)) with (clean cell :: cells clean rows).
      cbn [take]. rewrite !list_to_set_cons.
      split; [set_solver|]. f_equal. f_equal. set_solver.
    + exists 0%nat. rewrite collect_full by lia.
      rewrite take_0, list_to_set_nil, (right_id_L ∅ (∪)).
      split; [done|].
      assert (size keywords <= size (keywords ∪ list_to_set (cells clean ((cell :: row) :: rows))))%nat
        by (apply subseteq_size; set_solver).
      lia.
Qed.

(** The two ways [read_first_n_keywords] ends. *)
Lemma read_first_n_keywords_cases {O} (file : csv_file) (s : O * World) :
  (failure file = None ->
   exists keywords m,
     read_first_n_keywords clean file n s = (Ok keywords, s)
     /\ NoDup keywords
     /\ length keywords
        = (n `min` size (list_to_set (cells clean (rows file)) : gset string))%nat
     /\ (forall k, k ∈ keywords <-> k ∈ take m (cells clean (rows file)))
     /\ ((size (list_to_set (cells clean (rows file)) : gset string) <= n)%nat ->
         forall k, k ∈ keywords <-> k ∈ cells clean (rows file)))
  /\ (forall e,
        failure file = Some e ->
        exists w',
          read_first_n_keywords clean file n s = (Ok [], (fst s, w'))
          /\ trace w' = trace (snd s) ++ [EvLog ERROR "Error reading keywords file" (Some e)]
          /\ patents w' = patents (snd s)).
Proof.
  split.
  - intros Hok. unfold read_first_n_keywords. rewrite Hok.
    destruct (collect_spec ∅ (rows file)) as (m & Heq & Hsz).
    { rewrite size_empty. lia. }
    rewrite (left_id_L ∅ (∪)) in Heq, Hsz.
    exists (elements (collect clean n ∅ (rows file))), m.
    split; [reflexivity|]. split; [apply NoDup_elements|].
    split; [exact Hsz|]. split.
    + intros k. by rewrite elem_of_elements, Heq, elem_of_list_to_set.
    + intros Hfew k. rewrite elem_of_elements.
      assert (Hall : collect clean n ∅ (rows file)
                     = list_to_set (cells clean (rows file))).
      { apply set_subseteq_size_eq.
        - rewrite Heq. intros x. rewrite !elem_of_list_to_set. apply subseteq_take.
        - rewrite Hsz. lia. }
      by rewrite Hall, elem_of_list_to_set.
  - intros e He. unfold read_first_n_keywords. rewrite He.
    cbv [bind logging emit ret]. cbn [fst snd]. by eexists.
Qed.

(** X14. [read_first_n_keywords] returns no keyword twice and at most [n]
    keywords: as many as the file has different ones, up to [n].  Each is
    the cleaned first cell of a row, the rows without cells being skipped,
    and they are those of the first rows of the file: a keyword is returned
    exactly when it is among the first [m] keywords of the file, for some
    [m].  When the file has at most [n] different keywords all of them are
    returned.  When reading raises, the error is logged and the result is
    the empty list, the rows already read included. *)
Theorem read_first_n_keywords_spec {O} (file : csv_file) (s : O * World) :
  (failure file = None ->
   exists keywords m,
     read_first_n_keywords clean file n s = (Ok keywords, s)
     /\ NoDup keywords
     /\ length keywords
        = (n `min` size (list_to_set (cells clean (rows file)) : gset string))%nat
     /\ (forall k, k ∈ keywords <-> k ∈ take m (cells clean (rows file)))
     /\ ((size (list_to_set (cells clean (rows file)) : gset string) <= n)%nat ->
         forall k, k ∈ keywords <-> k ∈ cells clean (rows file)))
  /\ (forall e,
        failure file = Some e ->
        exists w',
          read_first_n_keywords clean file n s = (Ok [], (fst s, w'))
          /\ trace w' = trace (snd s) ++ [EvLog ERROR "Error reading keywords file" (Some e)]
          /\ patents w' = patents (snd s)).
Proof. apply read_first_n_keywords_cases. Qed.
End KeywordsFacts.

Section PoolBounds.
Import Harvest.
Context (E : Env).

Lemma submit_all_measure {O I A} (task : I -> M O A) (mu : O * World -> nat) (k : nat) :
  (forall x s, (mu (snd (task x s)) <= mu s + k)%nat) ->
  forall items s, (mu (snd (submit_all task items s)) <= mu s + k * length items)%nat.
Proof.
  intros Htask. induction items as [|x items IH]; intros s; [cbn; lia|].
  cbn [submit_all length]. unfold bind at 1. rewrite run_task_future.
  destruct (submit_all_spec task items (snd (task x s))) as (fs & s' & Hrun & _).
  pose proof (IH (snd (task x s))) as H. rewrite Hrun in H.
  unfold bind at 1. rewrite Hrun. cbn [snd] in *. pose proof (Htask x s).
  rewrite Nat.mul_succ_r. change (mu s' <= mu s + (k * length items + k))%nat. lia.
Qed.

Lemma submit_all_extends {O I A} (task : I -> M O A) :
  (forall x s, exists new, patents (snd (snd (task x s))) = patents (snd s) ++ new) ->
  forall items s,
    exists new, patents (snd (snd (submit_all task items s))) = patents (snd s) ++ new.
Proof.
  intros Htask. induction items as [|x items IH]; intros s.
  - exists []. cbn. by rewrite app_nil_r.
  - cbn [submit_all]. unfold bind at 1. rewrite run_task_future.
    destruct (submit_all_spec task items (snd (task x s))) as (fs & s' & Hrun & _).
    destruct (IH (snd (task x s))) as (new2 & H2). rewrite Hrun in H2.
    destruct (Htask x s) as (new1 & H1).
    unfold bind at 1. rewrite Hrun.
    change (exists new, patents (snd s') = patents (snd s) ++ new).
    cbn [snd] in H2. exists (new1 ++ new2). by rewrite H2, H1, app_assoc.
Qed.

(** X15. The pool of [main] over [N] keywords sends at most [101 * N] GET
    requests and gives at most [100 * N] documents to [insert_one]; the
    collection keeps every document it had, in place, and receives at most
    [100 * N] more. *)
Theorem pool_is_bounded (keywords : list string) (s : EPOClient * World) :
  (exists stored,
      patents (snd (snd (submit_all (process_keyword E) keywords s)))
      = patents (snd s) ++ stored
      /\ (length stored <= 100 * length keywords)%nat)
  /\ (length (gets (trace (snd (snd (submit_all (process_keyword E) keywords s)))))
      <= length (gets (trace (snd s))) + 101 * length keywords)%nat
  /\ (length (inserts (trace (snd (snd (submit_all (process_keyword E) keywords s)))))
      <= length (inserts (trace (snd s))) + 100 * length keywords)%nat.
Proof.
  split; [|split].
  - destruct (submit_all_extends (process_keyword E)) with (items := keywords) (s := s)
      as (stored & Hst).
    { intros kw s0. destruct (process_keyword_requests E kw s0)
        as (_ & _ & st & _ & _ & Hp & _). by exists st. }
    exists stored. split; [exact Hst|].
    pose proof (submit_all_measure (process_keyword E)
                  (fun s0 => length (patents (snd s0))) 100) as Hm.
    cbv beta in Hm. specialize (Hm) with (items := keywords) (s := s).
    rewrite Hst, length_app in Hm. cut (length (patents (snd s)) + length stored
                                        <= length (patents (snd s)) + 100 * length keywords)%nat;
      [lia|]. apply Hm. intros kw s0.
    destruct (process_keyword_requests E kw s0)
      as (rq & ins & st & _ & _ & Hp & Hl1 & Hl2 & Hrel).
    rewrite Hp, length_app.
    assert (length st <= length ins)%nat.
    { destruct Hrel as [-> | [d ->]]; [lia | rewrite length_app; lia]. }
    lia.
  - apply (submit_all_measure (process_keyword E)
             (fun s0 => length (gets (trace (snd s0)))) 101).
    intros kw s0. destruct (process_keyword_requests E kw s0)
      as (rq & ins & st & Hg & _ & _ & Hl1 & _).
    rewrite Hg, length_app. cbn [length]. lia.
  - apply (submit_all_measure (process_keyword E)
             (fun s0 => length (inserts (trace (snd s0)))) 100).
    intros kw s0. destruct (process_keyword_requests E kw s0)
      as (rq & ins & st & _ & Hi & _ & Hl1 & Hl2 & _).
    rewrite Hi, length_app. lia.
Qed.
End PoolBounds.

Section ScriptFacts.
Import Harvest.
Context (E : Env).

Lemma init_effect (key secret : string) (w : World) :
  exists c w',
    init E key secret (tt, w) = (Ok c, (tt, w'))
    /\ gets (trace w') = gets (trace w)
    /\ patents w' = patents w
    /\ auth_calls (trace w') = S (auth_calls (trace w)).
Proof.
  cbv [init bind].
  destruct (get_oauth_token_spec E key secret tt w) as (ev & Hev & ->).
  cbv [time_time elapse get_trace advance emit ret bind]. cbn [fst snd now trace patents].
  do 2 eexists. split; [reflexivity|]. cbn [trace patents].
  rewrite !gets_app, !auth_calls_app.
  destruct ev; try discriminate Hev; cbn; rewrite !app_nil_r; repeat split; lia.
Qed.

(** X16. [main] with its keywords file returns normally, and the futures
    it holds are those of the pool over the keywords
    [read_first_n_keywords] returned, read after the client is built: one
    future for each keyword, so exactly as many as the file has different
    keywords, up to 1000, no two keywords equal and each the cleaned first
    cell of a row.  After the pool the main thread logs one error for each
    future that holds an exception, and then ["Processing completed!"].
    When the file cannot be read the token is still requested, and then
    nothing is submitted: no GET request is sent and the collection is
    left as it was. *)
Theorem main_submits_the_keywords_read (clean : string -> string) (key secret : string)
    (file : Keywords.csv_file) (w : World) :
  exists c w0 keywords w1 futures s2 w' report_log,
    init E key secret (tt, w) = (Ok c, (tt, w0))
    /\ Keywords.read_first_n_keywords clean file 1000 (tt, w0) = (Ok keywords, (tt, w1))
    /\ submit_all (process_keyword E) keywords
         (c, {| now := now w1;
                trace := trace w1 ++ [EvLog INFO "Starting processing" None];
                patents := patents w1 |})
       = (Ok futures, s2)
    /\ Keywords.main E clean key secret file (tt, w) = (Ok futures, (tt, w'))
    /\ trace w' = (trace (snd s2) ++ report_log) ++ [EvLog INFO "Processing completed!" None]
    /\ thread_errors report_log = exceptions futures
    /\ length futures = length keywords
    /\ Forall2 (fun keyword f =>
                  exists sx, f = future_of (fst (process_keyword E keyword sx)))
               keywords futures
    /\ (length keywords <= 1000)%nat
    /\ NoDup keywords
    /\ (forall k, k ∈ keywords -> k ∈ Keywords.cells clean (Keywords.rows file))
    /\ (Keywords.failure file = None ->
        w1 = w0
        /\ length keywords
           = (1000 `min` size (list_to_set (Keywords.cells clean (Keywords.rows file))
                               : gset string))%nat
        /\ ((size (list_to_set (Keywords.cells clean (Keywords.rows file)) : gset string)
             <= 1000)%nat ->
            forall k, k ∈ keywords <-> k ∈ Keywords.cells clean (Keywords.rows file)))
    /\ (forall e, Keywords.failure file = Some e ->
                  keywords = []
                  /\ futures = []
                  /\ gets (trace w') = gets (trace w)
                  /\ patents w' = patents w
                  /\ auth_calls (trace w') = S (auth_calls (trace w))).
Proof.
  destruct (init_effect key secret w) as (c & w0 & Hinit & Hg0 & Hp0 & Ha0).
  exists c, w0. cbv [Keywords.main]. unfold bind at 1. rewrite Hinit. unfold bind at 1.
  destruct (Keywords.failure file) as [e|] eqn:Hfail.
  - destruct (read_first_n_keywords_cases clean 1000 file (tt, w0)) as [_ Hread].
    destruct (Hread e Hfail) as (w1 & Hrun & Htr & Hp1). cbn [fst] in Hrun. rewrite Hrun.
    exists [], w1, [],
      (c, {| now := now w1; trace := trace w1 ++ [EvLog INFO "Starting processing" None];
             patents := patents w1 |}),
      {| now := now w1;
         trace := (trace w1 ++ [EvLog INFO "Starting processing" None])
                    ++ [EvLog INFO "Processing completed!" None];
         patents := patents w1 |}, [].
    split; [reflexivity|]. split; [reflexivity|]. split; [reflexivity|].
    split; [reflexivity|]. cbn [snd trace]. split; [by rewrite app_nil_r|].
    split; [reflexivity|]. split; [reflexivity|]. split; [constructor|].
    split; [cbn; lia|]. split; [constructor|].
    split; [intros k Hk; by apply elem_of_nil in Hk|]. split; [discriminate|].
    intros e' _. split; [done|]. split; [done|]. cbn [trace patents].
    rewrite !gets_app, !auth_calls_app, Htr, gets_app, auth_calls_app, Hp1. cbn.
    rewrite !app_nil_r. repeat split; [done | done | lia].
  - destruct (read_first_n_keywords_cases clean 1000 file (tt, w0)) as [Hread _].
    destruct (Hread Hfail) as (keywords & m & Hrun & Hnd & Hlen & Hin & Hall).
    rewrite Hrun. exists keywords, w0.
    unfold bind at 1.
    change (logging INFO "Starting processing" None (tt, w0))
      with (@Ok unit tt, (tt, {| now := now w0;
                                 trace := trace w0 ++ [EvLog INFO "Starting processing" None];
                                 patents := patents w0 |})).
    cbv beta iota. unfold bind at 1, with_object. cbn [fst snd].
    match goal with
    | |- context [submit_all ?t keywords ?s] =>
        destruct (submit_all_spec t keywords s) as (futures & [c2 w2] & Hpool & Hfut)
    end.
    rewrite Hpool. cbn [fst snd]. unfold bind at 1.
    destruct (report_exceptions_spec futures tt w2) as (w3 & tail & Hrep & Htail & Herr).
    rewrite Hrep.
    cbv [bind logging emit ret]. cbn [fst snd now trace patents].
    exists futures, (c2, w2). eexists. exists tail.
    split; [reflexivity|]. split; [reflexivity|]. split; [reflexivity|].
    split; [reflexivity|]. cbn [snd trace]. split; [by rewrite Htail|].
    split; [exact Herr|]. split; [symmetry; exact (Forall2_length _ _ _ Hfut)|].
    split; [exact Hfut|]. split; [lia|]. split; [exact Hnd|]. split.
    + intros k Hk. apply Hin in Hk. by apply (subseteq_take m) in Hk.
    + split; [|intros e' [=]]. intros _. split; [reflexivity|]. split; [exact Hlen | exact Hall].
Qed.
End ScriptFacts.

Section EmbeddingFacts.
Import EmbedStore.
Context (E : Env).

Lemma embeds_app (tr1 tr2 : list event) : embeds (tr1 ++ tr2) = embeds tr1 ++ embeds tr2.
Proof. apply omap_app. Qed.

Lemma process_abstract_result (abstract : json) (w : World) :
  (forall e, py_getitem abstract "patentNumber" = Raise e ->
             process_abstract E abstract (tt, w) = (Raise e, (tt, w)))
  /\ (has_number abstract -> fst (process_abstract E abstract (tt, w)) = Ok tt).
Proof.
  split.
  - intros e Hpn. cbv [process_abstract bind].
    by rewrite (embed_abstract_no_number E abstract e w Hpn).
  - intros [pn Hpn]. destruct (embed_abstract_spec E abstract pn w Hpn) as (w1 & _ & Hrun).
    cbv [process_abstract bind]. rewrite Hrun.
    destruct (py_getitem abstract "abstract") as [input|x]; [|done].
    destruct (embedding_reply E pn input w) as [v|x]; [|done].
    by destruct (store_embedding_spec E {| patentNumber := pn; embedding := v |} w1)
      as (stored & w2 & -> & _).
Qed.

(** X17. [process_abstract] raises exactly for a record without
    [patentNumber]: the handler of [embed_abstract] reads the field for
    its log line and raises in its turn, before any request is sent, with
    the world left as it was.  For every other record it returns, whether
    the abstract is missing, the embedding request fails or the vector
    index refuses the write. *)
Theorem process_abstract_raises_without_number (abstract : json) (w : World) :
  (forall e, py_getitem abstract "patentNumber" = Raise e ->
             process_abstract E abstract (tt, w) = (Raise e, (tt, w))
             /\ fst (run_task (process_abstract E abstract) (tt, w)) = Ok (Excepted e))
  /\ (has_number abstract -> fst (process_abstract E abstract (tt, w)) = Ok tt)
  /\ (fst (process_abstract E abstract (tt, w)) = Ok tt -> has_number abstract).
Proof.
  destruct (process_abstract_result abstract w) as [Hno Hyes].
  split; [|split].
  - intros e Hpn. split; [by apply Hno|]. by rewrite run_task_future, (Hno e Hpn).
  - exact Hyes.
  - intros Hok. destruct (py_getitem abstract "patentNumber") as [pn|e] eqn:Hpn.
    + by exists pn.
    + by rewrite (Hno e eq_refl) in Hok.
Qed.

Lemma submit_all_returned (abstracts : list json) (w : World) :
  Forall has_number abstracts ->
  exists w',
    submit_all (process_abstract E) abstracts (tt, w)
    = (Ok (map (fun _ => Returned tt) abstracts), (tt, w')).
Proof.
  intros Hall. revert w. induction Hall as [|abstract abstracts Hn _ IH]; intros w.
  - by exists w.
  - cbn [submit_all map]. unfold bind at 1. rewrite run_task_future.
    destruct (process_abstract_result abstract w) as [_ Hyes]. rewrite (Hyes Hn).
    destruct (process_abstract E abstract (tt, w)) as [r [[] w1]]. cbn [snd future_of].
    destruct (IH w1) as (w' & Hrun). unfold bind at 1. rewrite Hrun. by exists w'.
Qed.

Lemma check_futures_returned {A} (items : list A) (w : World) :
  check_futures (map (fun _ => @Returned unit tt) items) (tt, w) = (Ok tt, (tt, w)).
Proof.
  unfold check_futures. induction items as [|x items IH]; [reflexivity|].
  cbn [map]. rewrite for_each_cons.
  change (try_except _ _ _ (tt, w)) with (@Ok unit tt, (tt, w)). exact IH.
Qed.

Lemma main_on_numbered (abstracts : list json) (w : World) :
  Forall has_number abstracts ->
  exists w_pool w',
    submit_all (process_abstract E) abstracts (tt, w)
    = (Ok (map (fun _ => Returned tt) abstracts), (tt, w_pool))
    /\ main E abstracts (tt, w) = (Ok (map (fun _ => Returned tt) abstracts), (tt, w'))
    /\ (abstracts <> [] ->
        trace w' = trace w_pool ++ [EvLog INFO "Processing completed!" None]).
Proof.
  intros Hall. destruct (submit_all_returned abstracts w Hall) as (w1 & Hpool).
  destruct abstracts as [|abstract abstracts].
  - injection Hpool as <-. eexists w, _. split; [reflexivity|]. split; [reflexivity|]. done.
  - exists w1. cbv [main]. unfold bind at 1. rewrite Hpool.
    unfold bind at 1. rewrite check_futures_returned.
    cbv [bind logging emit ret]. cbn [fst snd now trace patents].
    eexists. split; [reflexivity|]. split; [reflexivity|]. done.
Qed.

(** X18. On records that all have a [patentNumber], as the harvested ones do,
    the embedding stage never sees a failure, whatever the embedding
    service and the vector index answer: every future is a normal return,
    so no item counts as failed, and after the pool the main thread logs
    nothing but ["Processing completed!"]. *)
Theorem embedding_failures_are_not_reported (abstracts : list json) (w : World) :
  Forall has_number abstracts ->
  exists futures w_pool w',
    submit_all (process_abstract E) abstracts (tt, w) = (Ok futures, (tt, w_pool))
    /\ main E abstracts (tt, w) = (Ok futures, (tt, w'))
    /\ futures = map (fun _ => Returned tt) abstracts
    /\ exceptions futures = []
    /\ failed (batch_report abstracts futures) = 0%nat
    /\ (abstracts <> [] ->
        trace w' = trace w_pool ++ [EvLog INFO "Processing completed!" None]).
Proof.
  intros Hall. destruct (main_on_numbered abstracts w Hall) as (w1 & w' & Hpool & Hmain & Htr).
  exists (map (fun _ => Returned tt) abstracts), w1, w'.
  split; [exact Hpool|]. split; [exact Hmain|]. split; [reflexivity|].
  assert (Hnone : forall l : list json, exceptions (map (fun _ => @Returned unit tt) l) = []
                  /\ List.filter is_excepted (map (fun _ => @Returned unit tt) l) = []).
  { induction l as [|x l [IH1 IH2]]; [done|]. split; [exact IH1 | exact IH2]. }
  destruct (Hnone abstracts) as [H1 H2].
  split; [exact H1|]. split; [|exact Htr]. cbn [batch_report failed]. by rewrite H2.
Qed.

(** X19. [store_embedding_in_cloudflare] never raises and makes exactly one
    insert request, under the number of the record.  It returns [True]
    exactly when the request returned an object whose [success] is truthy;
    an exception of the request, an answer that is no object and a false
    or missing [success] all give [False]. *)
Theorem store_embedding_reports_success (e : embedded) (w : World) :
  exists stored w',
    store_embedding_in_cloudflare E e (tt, w) = (Ok stored, (tt, w'))
    /\ vector_inserts (trace w') = vector_inserts (trace w) ++ [patentNumber e]
    /\ (stored = true <->
        exists fields,
          vectorize_insert E (trace w) (patentNumber e) (embedding e) = Ok (JObj fields)
          /\ truthy (from_option id (JBool false) (assoc "success" fields)) = true).
Proof.
  cbv [store_embedding_in_cloudflare try_except bind lift logging emit ret is_Exception
       cf_vectorize_insert elapse get_trace advance].
  cbn [fst snd now trace patents].
  destruct (vectorize_insert E (trace w) (patentNumber e) (embedding e)) as [response|x];
    cbn [fst snd now trace patents].
  - destruct response; cbn [py_get fst snd now trace patents];
      try (do 2 eexists; split; [reflexivity|]; cbn [trace]; split;
           [rewrite !vector_inserts_app; cbn; by rewrite ?app_nil_r|];
           split; [discriminate | by intros (f & [=] & _)]).
    destruct (truthy _) eqn:Hs; cbn [fst snd now trace patents];
      (do 2 eexists; split; [reflexivity|]); cbn [trace];
      (split; [rewrite !vector_inserts_app; cbn; by rewrite ?app_nil_r|]).
    + split; [|done]. intros _. by exists fields.
    + split; [discriminate|]. intros (f & [= <-] & Ht). congruence.
  - do 2 eexists; split; [reflexivity|]; cbn [trace]. split;
      [rewrite !vector_inserts_app; cbn; by rewrite ?app_nil_r|].
    split; [discriminate | by intros (f & [=] & _)].
Qed.

(** X20. For a record with a [patentNumber], [embed_abstract] sends at most one
    embedding request: none when the record has no [abstract], and
    otherwise one whose input is the abstract as it is stored, the
    sentinel texts of the harvest included.  When the request returns at
    least one embedding, the result is the number of the record with the
    first embedding. *)
Theorem embed_abstract_sends_the_abstract (abstract pn : json) (w : World) :
  py_getitem abstract "patentNumber" = Ok pn ->
  exists r w',
    embed_abstract E abstract (tt, w) = (Ok r, (tt, w'))
    /\ embeds (trace w')
       = embeds (trace w)
           ++ match py_getitem abstract "abstract" with Ok input => [input] | Raise _ => [] end
    /\ (forall input v,
          py_getitem abstract "abstract" = Ok input ->
          embedding_reply E pn input w = Ok v ->
          r = Some {| patentNumber := pn; embedding := v |}).
Proof.
  intros Hpn. unfold embedding_reply.
  cbv [embed_abstract try_except bind lift logging emit ret is_Exception
       openai_embeddings_create elapse get_trace advance].
  rewrite Hpn. cbn [fst snd now trace patents].
  destruct (py_getitem abstract "abstract") as [input|e]; cbn [fst snd now trace patents].
  - destruct (embeddings_create E _ input) as [data|e] eqn:Hreq;
      cbn [fst snd now trace patents].
    + destruct (first_embedding data) as [v|e] eqn:Hfirst; cbn [fst snd now trace patents];
        (do 2 eexists; split; [reflexivity|]); cbn [trace];
        (split; [repeat rewrite embeds_app; cbn; by rewrite ?app_nil_r|]);
        intros input' v' [= <-]; rewrite Hreq, Hfirst; by intros [= <-].
    + do 2 eexists; split; [reflexivity|]; cbn [trace].
      split; [repeat rewrite embeds_app; cbn; by rewrite ?app_nil_r|].
      intros input' v' [= <-]. by rewrite Hreq.
  - do 2 eexists; split; [reflexivity|]; cbn [trace].
    split; [repeat rewrite embeds_app; cbn; by rewrite ?app_nil_r|].
    by intros input' v' [=].
Qed.

Lemma projected_records (docs : list json) :
  Forall is_record docs -> map Abstracts.projected docs = docs.
Proof.
  induction 1 as [|d docs (pn & a & ->) _ IH]; [done|]. cbn [map]. by rewrite IH.
Qed.

Lemma records_have_numbers (docs : list json) :
  Forall is_record docs -> Forall has_number docs.
Proof.
  intros H. eapply Forall_impl; [exact H|]. intros d (pn & a & ->). by exists (JStr pn).
Qed.

Lemma process_keyword_records (keyword : string) (s : Harvest.EPOClient * World) :
  Forall is_record (patents (snd s)) ->
  Forall is_record (patents (snd (snd (Harvest.process_keyword E keyword s)))).
Proof.
  intros Hold.
  destruct (process_keyword_stores E keyword s) as (new & -> & Hloop & Hnone).
  apply Forall_app. split; [exact Hold|].
  destruct (fst (Harvest.search_patents E keyword s)) as [results|e].
  - eapply Forall_impl; [exact (loop_stores_shape E _ _ _ (Hloop results eq_refl))|].
    intros d (pn & a & -> & _). by exists pn, a.
  - rewrite (Hnone e eq_refl). constructor.
Qed.

(** X21. The two stages fit together.  When the collection holds records of
    the harvest, it still does after a keyword is processed, and
    [get_abstracts_from_mongodb] reads them back as they were stored, in
    order; the embedding stage then returns one normal future for each
    document of the collection.  When the collection cannot be read, the
    embedding stage logs the error, submits nothing and sends no request. *)
Theorem harvest_feeds_the_embedding_stage (keyword : string) (s : Harvest.EPOClient * World) :
  Forall is_record (patents (snd s)) ->
  Forall is_record (patents (snd (snd (Harvest.process_keyword E keyword s))))
  /\ fst (Abstracts.get_abstracts_from_mongodb None
            (tt, snd (snd (Harvest.process_keyword E keyword s))))
     = Ok (patents (snd (snd (Harvest.process_keyword E keyword s))))
  /\ fst (Abstracts.main E None (tt, snd (snd (Harvest.process_keyword E keyword s))))
     = Ok (map (fun _ => Returned tt)
             (patents (snd (snd (Harvest.process_keyword E keyword s)))))
  /\ (forall e w,
        exists w',
          Abstracts.main E (Some e) (tt, w) = (Ok [], (tt, w'))
          /\ embeds (trace w') = embeds (trace w)
          /\ vector_inserts (trace w') = vector_inserts (trace w)).
Proof.
  intros Hold. pose proof (process_keyword_records keyword s Hold) as Hnew.
  set (w1 := snd (snd (Harvest.process_keyword E keyword s))) in *.
  split; [exact Hnew|]. split; [|split].
  - cbv [Abstracts.get_abstracts_from_mongodb bind logging emit ret]. cbn [fst snd].
    by rewrite (projected_records _ Hnew).
  - cbv [Abstracts.main Abstracts.get_abstracts_from_mongodb]. unfold bind at 1.
    cbv beta iota. unfold bind at 1. cbv [ret]. cbn [fst snd patents].
    rewrite (projected_records _ Hnew).
    change (logging INFO "Fetched abstracts from MongoDB." None (tt, w1))
      with (@Ok unit tt,
            (tt, {| now := now w1;
                    trace := trace w1 ++ [EvLog INFO "Fetched abstracts from MongoDB." None];
                    patents := patents w1 |})).
    cbv beta iota zeta.
    destruct (main_on_numbered (patents w1)
                {| now := now w1;
                   trace := trace w1 ++ [EvLog INFO "Fetched abstracts from MongoDB." None];
                   patents := patents w1 |} (records_have_numbers _ Hnew))
      as (wp & w' & _ & -> & _). reflexivity.
  - intros e w.
    exists {| now := now w;
              trace := (trace w ++ [EvLog ERROR "Error fetching abstracts from MongoDB" (Some e)])
                         ++ [EvLog ERROR "No abstracts found in MongoDB. Exiting." None];
              patents := patents w |}.
    split; [reflexivity|]. cbn [trace].
    rewrite !embeds_app, !vector_inserts_app.
    change (embeds [EvLog ERROR "Error fetching abstracts from MongoDB" (Some e)]) with (@nil json).
    change (embeds [EvLog ERROR "No abstracts found in MongoDB. Exiting." None]) with (@nil json).
    change (vector_inserts [EvLog ERROR "Error fetching abstracts from MongoDB" (Some e)])
      with (@nil json).
    change (vector_inserts [EvLog ERROR "No abstracts found in MongoDB. Exiting." None])
      with (@nil json).
    by rewrite !app_nil_r.
Qed.
End EmbeddingFacts.

(** * The further properties on the scenarios *)

Section FurtherRuns.
Import Harvest Scenario Cases Examples.
Local Open Scope Q_scope.

(** Thread 8 calls a paced limiter that only thread 7 has used. *)
Lemma first_wait_never_sleeps_witness :
  exists self' w',
    RateLimiter.wait env_grant 8 (Limiters.paced, world_at 10) = (Ok tt, (self', w'))
    /\ sleeps (trace w') = sleeps (trace (world_at 10))
    /\ RateLimiter.last_call self' !! 8%nat = Some (now w')
    /\ dom (RateLimiter.last_call self') = {[ 8%nat ]} ∪ dom (RateLimiter.last_call Limiters.paced).
Proof.
  apply (first_wait_never_sleeps env_grant Limiters.paced (world_at 10) 8). reflexivity.
Defined.

(** Thread 7 calls again at once: it sleeps for the whole delay. *)
Lemma wait_sleeps_for_the_rest_witness :
  exists self' w',
    RateLimiter.wait env_grant 7 (Limiters.paced, world_at 10) = (Ok tt, (self', w'))
    /\ sleeps (trace w') = [1 / 2 - (reading env_grant (world_at 10) - 10)].
Proof.
  destruct (wait_sleeps_for_the_rest env_grant Limiters.paced (world_at 10) 7 10 eq_refl)
    as (self' & w' & Hrun & Hearly & _).
  exists self', w'. split; [exact Hrun|].
  destruct Hearly as [Hsl _]; [vm_compute; reflexivity | exact Hsl].
Defined.

(** Thread 7 calls twice, threads 8 and 9 in between. *)
Lemma waits_of_a_thread_are_spaced_witness :
  exists self1 w1 self3 w3,
    RateLimiter.wait env_grant 7 (Limiters.paced, world_at 10) = (Ok tt, (self1, w1))
    /\ waits env_grant [7; 8; 9; 7]%nat (Limiters.paced, world_at 10) = (Ok tt, (self3, w3))
    /\ RateLimiter.last_call self1 !! 7%nat = Some (now w1)
    /\ RateLimiter.last_call self3 !! 7%nat = Some (now w3)
    /\ now w1 + 1 / 2 <= now w3.
Proof.
  apply (waits_of_a_thread_are_spaced env_grant Limiters.paced (world_at 10) 7 [8; 9]%nat).
  - intros tr. cbn. lra.
  - repeat (constructor; [lia|]). constructor.
Defined.

(** A granted and a refused authentication request. *)
Lemma get_oauth_token_never_raises_witness :
  (exists w', get_oauth_token env_grant "key" "secret" (tt, world_at 0) = (Ok (JStr "new"), (tt, w')))
  /\ (exists w', get_oauth_token env_denied "key" "secret" (tt, world_at 0) = (Ok (JStr ""), (tt, w'))).
Proof.
  split.
  - destruct (get_oauth_token_never_raises env_grant "key" "secret" tt (world_at 0))
      as (tok & w' & Hrun & _ & _ & _ & _ & Hok).
    destruct (Hok {| status_code := 200; content := "body";
                     json_body := Ok (JObj [("access_token", JStr "new")]) |} eq_refl)
      as (_ & _ & _ & Hgrant).
    rewrite (Hgrant (JObj [("access_token", JStr "new")]) (JStr "new")) in Hrun;
      [by exists w' | cbn; lia | reflexivity | reflexivity].
  - destruct (get_oauth_token_never_raises env_denied "key" "secret" tt (world_at 0))
      as (tok & w' & Hrun & _ & _ & _ & _ & Hok).
    destruct (Hok {| status_code := 401; content := "error page";
                     json_body := Raise (RequestException None) |} eq_refl)
      as (Hstatus & _).
    rewrite Hstatus in Hrun; [by exists w' | cbn; lia].
Defined.

(** The constructor when the authentication request is refused. *)
Lemma init_always_builds_a_client_witness :
  exists c w',
    init env_denied "key" "secret" (tt, world_at 0) = (Ok c, (tt, w'))
    /\ token c = JStr ""
    /\ headers c !! "Authorization" = Some "Bearer "
    /\ token_valid_for c == 1200.
Proof.
  destruct (init_always_builds_a_client env_denied "key" "secret" (world_at 0))
    as (c & w' & Hrun & Hv & _ & _ & _ & _ & _ & Hno).
  destruct Hno as [Htok Hhd]; [reflexivity|].
  exists c, w'. split; [exact Hrun|]. split; [exact Htok|]. split; [exact Hhd | exact Hv].
Defined.

(** The client after the keyword ["battery"]. *)
Lemma client_stays_authorized_witness :
  authorized env_found
    (fst (snd (submit_all (process_keyword env_found) ["battery"] (client, world_at 1145))))
  /\ base_url (fst (snd (submit_all (process_keyword env_found) ["battery"]
                           (client, world_at 1145))))
     = "https://ops.epo.org/3.2/rest-services".
Proof.
  destruct (client_stays_authorized env_found ["battery"] (client, world_at 1145))
    as (Ha & Hb & _); [reflexivity|].
  split; [exact Ha | exact Hb].
Defined.

(** A refresh 1145 seconds after the acquisition, and the next call. *)
Lemma refresh_is_not_retried_witness :
  exists c1 w1 w2,
    ensure_token env_denied (client, world_at 1145) = (Ok tt, (c1, w1))
    /\ ensure_token env_denied (c1, w1) = (Ok tt, (c1, w2))
    /\ auth_calls (trace w2) = auth_calls (trace w1).
Proof.
  destruct (refresh_is_not_retried env_denied client (world_at 1145))
    as (c1 & w1 & Hrun & Hnext); [vm_compute; discriminate|].
  destruct Hnext as (w2 & Hrun2 & Hn); [vm_compute; reflexivity|].
  exists c1, w1, w2. split; [exact Hrun|]. split; [exact Hrun2 | exact Hn].
Defined.

(** The abstract of a full body, of an empty body, and the references of a
    body that has none. *)
Lemma chains_of_get_witness :
  abstract_of (abstract_body "A battery.") = Ok (JStr "A battery.")
  /\ abstract_of (JObj [("ops:world-patent-data", JObj [])]) = Ok no_abstract
  /\ patent_docs_of (search_body two_references) = Ok (JArr two_references).
Proof.
  destruct chains_of_get as (Habs & Hdocs & Hgen).
  rewrite !Habs, Hdocs. split; [|split].
  - destruct (Hgen abstract_keys "$" (JStr "No abstract available")
                (abstract_body "A battery.")) as (Hval & _).
    apply Hval. reflexivity.
  - destruct (Hgen abstract_keys "$" (JStr "No abstract available")
                (JObj [("ops:world-patent-data", JObj [])])) as (_ & _ & Hmiss & _).
    apply (Hmiss ["ops:world-patent-data"] "exchange-documents"
             ["exchange-document"; "abstract"; "p"; "$"] []); reflexivity.
  - destruct (Hgen references_keys "ops:publication-reference" (JArr [])
                (search_body two_references)) as (Hval & _).
    apply Hval. reflexivity.
Defined.

(** A search answered with status 500. *)
Lemma search_patents_outcomes_witness :
  fst (search_patents env_500 "battery" (client, world_at 0)) = Ok JNull.
Proof.
  destruct (search_patents_outcomes env_500 "battery" (client, world_at 0)) as (_ & H & _).
  apply (H "error page"). reflexivity.
Defined.

(** A search that does not get through. *)
Lemma process_keyword_raises_with_search_witness :
  fst (run_task (process_keyword env_offline "battery") (client, world_at 0))
  = Ok (Excepted AttributeError).
Proof.
  destruct (process_keyword_raises_with_search env_offline "battery" (client, world_at 0))
    as (_ & _ & H).
  apply H. reflexivity.
Defined.

(** A reference that is no object, before a well-formed one. *)
Lemma loop_ends_at_first_error_witness :
  for_each [JNull; reference "EP" "1000" "A1"] (process_doc env_found) (client, world_at 0)
  = (Raise AttributeError, (client, world_at 0)).
Proof.
  destruct (loop_ends_at_first_error env_found JNull [reference "EP" "1000" "A1"]
              (client, world_at 0) AttributeError) as (H & _).
  apply H. reflexivity.
Defined.

(** A search that finds a single reference, given as an object. *)
Lemma nothing_to_process_witness :
  fst (process_keyword env_single "battery" (client, world_at 0)) = Ok tt
  /\ gets (trace (snd (snd (process_keyword env_single "battery" (client, world_at 0)))))
     = gets (trace (snd (client, world_at 0)))
         ++ [search_endpoint env_single (fst (ensured env_single (client, world_at 0))) "battery"]
  /\ inserts (trace (snd (snd (process_keyword env_single "battery" (client, world_at 0)))))
     = inserts (trace (snd (client, world_at 0)))
  /\ patents (snd (snd (process_keyword env_single "battery" (client, world_at 0))))
     = patents (snd (client, world_at 0)).
Proof.
  apply (nothing_to_process env_single "battery" (client, world_at 0) single_reference_body).
  - vm_compute. reflexivity.
  - right. right. exists (reference "EP" "1000" "A1"). split; [reflexivity|].
    right. eexists. reflexivity.
Defined.

(** A file with two keywords in four rows. *)
Lemma read_first_n_keywords_spec_witness :
  exists keywords,
    Keywords.read_first_n_keywords clean keywords_file 20 (tt, world_at 0)
    = (Ok keywords, (tt, world_at 0))
    /\ NoDup keywords
    /\ length keywords = 2%nat
    /\ "battery" ∈ keywords
    /\ "solar" ∈ keywords.
Proof.
  destruct (read_first_n_keywords_spec clean 20 keywords_file (tt, world_at 0)) as [Hread _].
  destruct (Hread eq_refl) as (keywords & m & Hrun & Hnd & Hlen & _ & Hall).
  exists keywords. split; [exact Hrun|]. split; [exact Hnd|].
  split; [rewrite Hlen; vm_compute; reflexivity|].
  assert (Hfew : (size (list_to_set (Keywords.cells clean (Keywords.rows keywords_file))
                        : gset string) <= 20)%nat) by (vm_compute; lia).
  split; apply (Hall Hfew); vm_compute; repeat constructor.
Defined.

(** [main] when the keywords file is missing, and on a file with two
    keywords. *)
Lemma main_submits_the_keywords_read_witness :
  (exists futures w',
      Keywords.main env_found clean "key" "secret" missing_file (tt, world_at 0)
      = (Ok futures, (tt, w'))
      /\ futures = []
      /\ gets (trace w') = gets (trace (world_at 0))
      /\ auth_calls (trace w') = 1%nat)
  /\ (exists (keywords : list string) futures w',
        Keywords.main env_found clean "key" "secret" keywords_file (tt, world_at 0)
        = (Ok futures, (tt, w'))
        /\ length keywords = 2%nat
        /\ length futures = 2%nat
        /\ NoDup keywords).
Proof.
  split.
  - destruct (main_submits_the_keywords_read env_found clean "key" "secret" missing_file
                (world_at 0))
      as (c & w0 & keywords & w1 & futures & s2 & w' & report_log
          & _ & _ & _ & Hrun & _ & _ & _ & _ & _ & _ & _ & _ & Hfail).
    destruct (Hfail (OtherException "FileNotFoundError") eq_refl)
      as (_ & Hnone & Hgets & _ & Hauth).
    exists futures, w'. split; [exact Hrun|]. split; [exact Hnone|].
    split; [exact Hgets | exact Hauth].
  - destruct (main_submits_the_keywords_read env_found clean "key" "secret" keywords_file
                (world_at 0))
      as (c & w0 & keywords & w1 & futures & s2 & w' & report_log
          & _ & _ & _ & Hrun & _ & _ & Hlen & _ & _ & Hnd & _ & Hok & _).
    destruct (Hok eq_refl) as (_ & Hcount & _).
    exists keywords, futures, w'. split; [exact Hrun|].
    split; [rewrite Hcount; vm_compute; reflexivity|].
    split; [rewrite Hlen, Hcount; vm_compute; reflexivity | exact Hnd].
Defined.

(** A record without any field. *)
Lemma process_abstract_raises_without_number_witness :
  EmbedStore.process_abstract env_embedding (JObj []) (tt, world_at 0)
  = (Raise KeyError, (tt, world_at 0))
  /\ fst (run_task (EmbedStore.process_abstract env_embedding (JObj [])) (tt, world_at 0))
     = Ok (Excepted KeyError).
Proof.
  destruct (process_abstract_raises_without_number env_embedding (JObj []) (world_at 0))
    as (H & _).
  apply H. reflexivity.
Defined.

(** Two harvested records, with an embedding service that is down. *)
Lemma embedding_failures_are_not_reported_witness :
  exists w_pool w',
    submit_all (EmbedStore.process_abstract env_grant) harvested (tt, world_at 0)
    = (Ok [Returned tt; Returned tt], (tt, w_pool))
    /\ EmbedStore.main env_grant harvested (tt, world_at 0)
       = (Ok [Returned tt; Returned tt], (tt, w'))
    /\ trace w' = trace w_pool ++ [EvLog INFO "Processing completed!" None].
Proof.
  destruct (embedding_failures_are_not_reported env_grant harvested (world_at 0))
    as (futures & w_pool & w' & Hpool & Hmain & -> & _ & _ & Hlog).
  - repeat (constructor; [eexists; reflexivity|]). constructor.
  - exists w_pool, w'. split; [exact Hpool|]. split; [exact Hmain|].
    apply Hlog. discriminate.
Defined.

(** An embedding stored under the number of its record. *)
Lemma store_embedding_reports_success_witness :
  exists w',
    EmbedStore.store_embedding_in_cloudflare env_embedding
      {| EmbedStore.patentNumber := JStr "EP1000A1"; EmbedStore.embedding := [1 # 2; 1 # 3] |}
      (tt, world_at 0)
    = (Ok true, (tt, w'))
    /\ vector_inserts (trace w') = [JStr "EP1000A1"].
Proof.
  destruct (store_embedding_reports_success env_embedding
              {| EmbedStore.patentNumber := JStr "EP1000A1";
                 EmbedStore.embedding := [1 # 2; 1 # 3] |} (world_at 0))
    as (stored & w' & Hrun & Hins & Hiff).
  assert (Hstored : stored = true).
  { apply Hiff. exists [("success", JBool true)]. split; reflexivity. }
  rewrite Hstored in Hrun. exists w'. split; [exact Hrun | exact Hins].
Defined.

(** The request for a harvested record. *)
Lemma embed_abstract_sends_the_abstract_witness :
  exists r w',
    EmbedStore.embed_abstract env_embedding (record "EP1000A1" (JStr "A battery."))
      (tt, world_at 0)
    = (Ok r, (tt, w'))
    /\ embeds (trace w') = [JStr "A battery."]
    /\ r = Some {| EmbedStore.patentNumber := JStr "EP1000A1";
                   EmbedStore.embedding := [1 # 2; 1 # 3] |}.
Proof.
  destruct (embed_abstract_sends_the_abstract env_embedding
              (record "EP1000A1" (JStr "A battery.")) (JStr "EP1000A1") (world_at 0) eq_refl)
    as (r & w' & Hrun & Hsent & Hres).
  exists r, w'. split; [exact Hrun|]. split; [exact Hsent|].
  apply (Hres (JStr "A battery.")); reflexivity.
Defined.

(** The keyword ["battery"] on an empty collection, and the embedding
    stage on what it stored. *)
Lemma harvest_feeds_the_embedding_stage_witness :
  patents (snd (snd (process_keyword env_found "battery" (client, world_at 0))))
  = harvested
  /\ fst (Abstracts.main env_found None
            (tt, snd (snd (process_keyword env_found "battery" (client, world_at 0)))))
     = Ok [Returned tt; Returned tt].
Proof.
  destruct (harvest_feeds_the_embedding_stage env_found "battery" (client, world_at 0))
    as (_ & _ & Hmain & _); [constructor|].
  assert (Hpat : patents (snd (snd (process_keyword env_found "battery" (client, world_at 0))))
                 = harvested) by (vm_compute; reflexivity).
  split; [exact Hpat|]. rewrite Hmain, Hpat. reflexivity.
Defined.

End FurtherRuns.
